(** * sequelize-paranoid-delete: trigger synthesis, deduplication,
      migration interceptor and interactive decision engine.

    Shallow embedding of [src/index.ts] (the query-interface decorator) and
    of [src/sequelize-paranoid-delete.ts] (the interactive command line
    tool), followed by the properties established about them. *)

From Stdlib Require Import Bool Arith Lia List Ascii String.
Import ListNotations.

Local Open Scope list_scope.
Local Open Scope string_scope.

Set Implicit Arguments.

(* ================================================================== *)
(** ** Strings *)

(** JavaScript strings are modelled by [string]; template literals are
    concatenations with [++]. *)

Module Str.

(** The line feed that separates the lines of a template literal. *)
Definition nl : string := String (ascii_of_nat 10) EmptyString.

(** Characters that SQL treats as token separators. *)
Definition is_space (c : ascii) : bool :=
  match nat_of_ascii c with
  | 9 | 10 | 13 | 32 => true
  | _ => false
  end.

Fixpoint no_space (s : string) : bool :=
  match s with
  | EmptyString => true
  | String c s' => negb (is_space c) && no_space s'
  end.

Definition is_empty (s : string) : bool :=
  match s with EmptyString => true | _ => false end.

Definition flush (cur : string) (rest : list string) : list string :=
  if is_empty cur then rest else cur :: rest.

(** Whitespace-separated words of a text, [cur] being the word under
    construction. *)
Fixpoint words_from (cur s : string) : list string :=
  match s with
  | EmptyString => flush cur []
  | String c s' =>
      if is_space c then flush cur (words_from EmptyString s')
      else words_from (cur ++ String c EmptyString) s'
  end.

Definition words (s : string) : list string := words_from EmptyString s.

(** [includes needle hay]: JavaScript's [hay.includes(needle)]. *)
Fixpoint includes (needle hay : string) : bool :=
  prefix needle hay ||
  match hay with
  | EmptyString => false
  | String _ hay' => includes needle hay'
  end.

Fixpoint all_space (s : string) : bool :=
  match s with
  | EmptyString => true
  | String c s' => is_space c && all_space s'
  end.

(** A gap and the word behind it: the gap is white and not empty, the
    word has no white in it and is not empty. *)
Definition spaced (item : string * string) : bool :=
  all_space (fst item) && negb (is_empty (fst item)) &&
  no_space (snd item) && negb (is_empty (snd item)).

(** Characters of a string, for list reasoning. *)
Definition chars : string -> list ascii := list_ascii_of_string.

End Str.

(* ================================================================== *)
(** ** Trigger statement builder *)

(** Modelled from the spec: [utils/buildTriggerName], which the command
    line tool imports and whose source is missing.  The spec gives the
    name as [on_<parent>_delete_update_<child>], which is also the name
    [createParanoidDeleteTriggerStatement] writes inline. *)
Definition buildTriggerName (parentTable childTable : string) : string :=
  "on_" ++ parentTable ++ "_delete_update_" ++ childTable.

(** [createParanoidDeleteTriggerStatement], [src/index.ts] lines 13-29. *)
Definition createParanoidDeleteTriggerStatement
    (primaryTable primaryKey foreignTable foreignKey : string) : string :=
  Str.nl ++
  "  CREATE TRIGGER on_" ++ primaryTable ++ "_delete_update_" ++ foreignTable ++ Str.nl ++
  "  AFTER UPDATE" ++ Str.nl ++
  "  ON " ++ primaryTable ++ " FOR EACH ROW" ++ Str.nl ++
  "  BEGIN" ++ Str.nl ++
  "    IF OLD.deletedAt IS NULL AND NEW.deletedAt IS NOT NULL THEN" ++ Str.nl ++
  "      UPDATE " ++ foreignTable ++ Str.nl ++
  "        SET " ++ foreignTable ++ ".deletedAt = NOW()" ++ Str.nl ++
  "      WHERE " ++ foreignTable ++ "." ++ foreignKey ++ " = NEW." ++ primaryKey ++ ";" ++ Str.nl ++
  "    END IF;" ++ Str.nl ++
  "  END;" ++ Str.nl.

(** The words of the statement the trigger is expected to consist of. *)
Definition trigger_words (parentTable parentKey childTable childKey : string)
  : list string :=
  [ "CREATE"; "TRIGGER"; buildTriggerName parentTable childTable;
    "AFTER"; "UPDATE";
    "ON"; parentTable; "FOR"; "EACH"; "ROW";
    "BEGIN";
    "IF"; "OLD.deletedAt"; "IS"; "NULL"; "AND";
          "NEW.deletedAt"; "IS"; "NOT"; "NULL"; "THEN";
    "UPDATE"; childTable;
    "SET"; childTable ++ ".deletedAt"; "="; "NOW()";
    "WHERE"; childTable ++ "." ++ childKey; "="; "NEW." ++ parentKey ++ ";";
    "END"; "IF;";
    "END;" ].

(** A text laid out as words, each behind its own gap, and a tail. *)
Fixpoint layout (items : list (string * string)) (tail : string) : string :=
  match items with
  | [] => tail
  | (gap, word) :: items' => gap ++ word ++ layout items' tail
  end.

(** The gaps of the template: line feeds, indentation and single
    spaces. *)
Definition trigger_gaps : list string :=
  [ Str.nl ++ "  "; " "; " ";
    Str.nl ++ "  "; " ";
    Str.nl ++ "  "; " "; " "; " "; " ";
    Str.nl ++ "  ";
    Str.nl ++ "    "; " "; " "; " "; " "; " "; " "; " "; " "; " ";
    Str.nl ++ "      "; " ";
    Str.nl ++ "        "; " "; " "; " ";
    Str.nl ++ "      "; " "; " "; " ";
    Str.nl ++ "    "; " ";
    Str.nl ++ "  " ].

Definition trigger_layout (parentTable parentKey childTable childKey : string)
  : list (string * string) :=
  combine trigger_gaps (trigger_words parentTable parentKey childTable childKey).

(** The first line of a statement that creates the trigger of a pair of
    tables. *)
Definition trigger_header (parentTable childTable : string) : string :=
  Str.nl ++ "  CREATE TRIGGER " ++ buildTriggerName parentTable childTable ++ Str.nl.

(* ================================================================== *)
(** ** Column specifications and the cascade annotation *)

(** The [references] member of a column specification: a table name, or
    an object with a [model] and an optional [key]. *)
Inductive References : Type :=
| RefTable (table : string)
| RefModel (model : string) (key : option string).

(** The third argument of [addColumn] and the values of the second
    argument of [createTable]: a bare data type (not an options object),
    or an options object of which only the members the interceptor reads
    are kept; [None] stands for a member that is not in the object. *)
Inductive Attribute : Type :=
| DataType (name : string)
| ColumnOptions (onDelete : option string) (references : option References).

Record PrimaryTableProps : Type :=
  { primaryTable : string; primaryKey : string }.

(** [getPrimaryKey?.(table) ?? 'id'] *)
Definition lookupPrimaryKey (getPrimaryKey : option (string -> string))
    (table : string) : string :=
  match getPrimaryKey with
  | Some f => f table
  | None => "id"
  end.

(** [getPrimaryTableProps], [src/index.ts] lines 31-53. *)
Definition getPrimaryTableProps (options : Attribute)
    (getPrimaryKey : option (string -> string)) : option PrimaryTableProps :=
  match options with
  | ColumnOptions (Some onDelete) references =>
      if onDelete =? "PARANOID CASCADE" then
        match references with
        | Some (RefTable table) =>
            Some {| primaryTable := table;
                    primaryKey := lookupPrimaryKey getPrimaryKey table |}
        | Some (RefModel model key) =>
            Some {| primaryTable := model;
                    primaryKey :=
                      match key with
                      | Some k => k
                      | None => lookupPrimaryKey getPrimaryKey model
                      end |}
        | None => None
        end
      else None
  | _ => None
  end.

(** A column specification carries the cascade annotation when it has
    both members of the annotation: [onDelete: 'PARANOID CASCADE'] and a
    [references]. *)
Definition carries_annotation (a : Attribute) : bool :=
  match a with
  | ColumnOptions (Some onDelete) (Some _) => onDelete =? "PARANOID CASCADE"
  | _ => false
  end.

(** The parent table an annotation refers to. *)
Definition referenced_table (r : References) : string :=
  match r with
  | RefTable table => table
  | RefModel model _ => model
  end.

(** The precedence the primary key is expected to be resolved with. *)
Definition resolved_key (r : References)
    (getPrimaryKey : option (string -> string)) : string :=
  match r with
  | RefModel _ (Some key) => key
  | _ =>
      match getPrimaryKey with
      | Some resolver => resolver (referenced_table r)
      | None => "id"
      end
  end.

(* ================================================================== *)
(** ** Promises *)

Inductive Error : Type :=
| TypeError (message : string)
| DatabaseError (message : string).

Inductive Settlement (A : Type) : Type :=
| Fulfilled (value : A)
| Rejected (reason : Error).

Arguments Rejected {A} reason.

(** A promise is known by the instant at which it settles and by how. *)
Record Promise (A : Type) : Type :=
  { settled_at : nat; settlement : Settlement A }.

(** [await p] reached at instant [now]: the instant at which the
    function resumes. *)
Definition resume (A : Type) (now : nat) (p : Promise A) : nat :=
  Nat.max now (settled_at p).

(** The rejection that comes first among the promises of a list (the
    leftmost of those that come at the same instant). *)
Fixpoint earliest_rejection (A : Type) (ps : list (Promise A))
  : option (nat * Error) :=
  match ps with
  | [] => None
  | p :: ps' =>
      match settlement p, earliest_rejection ps' with
      | Rejected e, Some (t', e') =>
          if Nat.leb (settled_at p) t' then Some (settled_at p, e) else Some (t', e')
      | Rejected e, None => Some (settled_at p, e)
      | Fulfilled _, later => later
      end
  end.

Fixpoint fulfilled_values (A : Type) (ps : list (Promise A)) : list A :=
  match ps with
  | [] => []
  | p :: ps' =>
      match settlement p with
      | Fulfilled v => v :: fulfilled_values ps'
      | Rejected _ => fulfilled_values ps'
      end
  end.

Definition latest (A : Type) (ps : list (Promise A)) : nat :=
  fold_right Nat.max 0 (map (@settled_at A) ps).

(** [Promise.all]: rejected as soon as one member is, fulfilled once all
    members are. *)
Definition Promise_all (A : Type) (ps : list (Promise A)) : Promise (list A) :=
  match earliest_rejection ps with
  | Some (t, e) => {| settled_at := t; settlement := Rejected e |}
  | None => {| settled_at := latest ps;
               settlement := Fulfilled (fulfilled_values ps) |}
  end.

(* ================================================================== *)
(** ** Migration interceptor ([src/index.ts]) *)

(** The arguments of a call.  [addColumn] and [createTable] take the
    shapes of their signatures; every other operation takes arguments the
    interceptor never looks at. *)
Inductive CallArgs : Type :=
| AddColumnArgs (table key : string) (attribute : Attribute)
| CreateTableArgs (tableName : string) (attributes : list (string * Attribute))
| OtherArgs (rest : list string).

Record Options : Type :=
  { getPrimaryKey : option (string -> string) }.

(** [options?.getPrimaryKey] *)
Definition options_getPrimaryKey (options : option Options)
  : option (string -> string) :=
  match options with
  | Some o => getPrimaryKey o
  | None => None
  end.

(** A string is truthy when it is not empty. *)
Definition truthy_string (s : string) : bool := negb (Str.is_empty s).

(** The statements of the table-create path, in the order of
    [Object.entries(columns)]: [map], [filter], [map]. *)
Definition createTableStatements (newTable : string)
    (columns : list (string * Attribute))
    (getPrimaryKey : option (string -> string)) : list string :=
  map (fun entry : string * option PrimaryTableProps =>
         let (foreignKey, primaryTableProps) := entry in
         match primaryTableProps with
         | Some props =>
             createParanoidDeleteTriggerStatement
               (primaryTable props) (primaryKey props) newTable foreignKey
         | None => EmptyString  (* filtered out before this point *)
         end)
    (filter (fun entry : string * option PrimaryTableProps =>
               match snd entry with Some _ => true | None => false end)
       (map (fun column : string * Attribute =>
               let (columnName, columnDescription) := column in
               (columnName, getPrimaryTableProps columnDescription getPrimaryKey))
          columns)).

Section Interceptor.

(** What the operations of the migration interface resolve with, and the
    state of the database behind it. *)
Variable Value : Type.
Variable World : Type.

(** An asynchronous operation: started at an instant, in a state of the
    database, it hands back its promise at once. *)
Definition Async : Type := nat -> World -> Promise Value * World.

Record Sequelize : Type :=
  { query : string -> Async }.

Record QueryInterface : Type :=
  { sequelize : Sequelize;
    method : string -> option (CallArgs -> Async) }.

(** The statements the interceptor itself hands to [sequelize.query],
    each with the instant at which it does. *)
Definition Issued : Type := list (nat * string).

Definition Intercepted : Type :=
  nat -> World -> Promise Value * World * Issued.

(** [statements.map(s => target.sequelize.query(s))]: every query is
    started at the same instant, none waits for another. *)
Fixpoint query_each (db : Sequelize) (statements : list string)
    (now : nat) (w : World) : list (Promise Value) * World :=
  match statements with
  | [] => ([], w)
  | statement :: statements' =>
      let (p, w1) := query db statement now w in
      let (ps, w2) := query_each db statements' now w1 in
      (p :: ps, w2)
  end.

(** The body of the [addColumn] branch once a truthy [primaryTable] has
    been found, lines 73-87. *)
Definition addColumnTrigger (target : QueryInterface)
    (props : PrimaryTableProps) (foreignTable foreignKey : string)
    (commandPromise : Promise Value) : Intercepted :=
  fun now w =>
    let t1 := resume now commandPromise in
    match settlement commandPromise with
    | Rejected e => ({| settled_at := t1; settlement := Rejected e |}, w, [])
    | Fulfilled commandResult =>
        let statement :=
          createParanoidDeleteTriggerStatement
            (primaryTable props) (primaryKey props) foreignTable foreignKey in
        let (q, w1) := query (sequelize target) statement t1 w in
        let t2 := resume t1 q in
        match settlement q with
        | Rejected e =>
            ({| settled_at := t2; settlement := Rejected e |}, w1,
             [(t1, statement)])
        | Fulfilled _ =>
            ({| settled_at := t2; settlement := Fulfilled commandResult |}, w1,
             [(t1, statement)])
        end
    end.

(** The body of the [createTable] branch, lines 92-115. *)
Definition createTableTriggers (target : QueryInterface)
    (options : option Options) (newTable : string)
    (columns : list (string * Attribute))
    (commandPromise : Promise Value) : Intercepted :=
  fun now w =>
    let t1 := resume now commandPromise in
    match settlement commandPromise with
    | Rejected e => ({| settled_at := t1; settlement := Rejected e |}, w, [])
    | Fulfilled commandResult =>
        let statements :=
          createTableStatements newTable columns (options_getPrimaryKey options) in
        let (ps, w1) := query_each (sequelize target) statements t1 w in
        let all := Promise_all ps in
        let t2 := resume t1 all in
        match settlement all with
        | Rejected e =>
            ({| settled_at := t2; settlement := Rejected e |}, w1,
             map (pair t1) statements)
        | Fulfilled _ =>
            ({| settled_at := t2; settlement := Fulfilled commandResult |}, w1,
             map (pair t1) statements)
        end
    end.

(** The function the proxy returns for a property other than
    [sequelize], lines 61-119.  [Reflect.apply] starts the underlying
    operation before anything else is looked at; a property that is not a
    method makes it throw, which rejects the asynchronous function.  A
    call whose arguments do not have the shape of the command's signature
    is given the behaviour of a call with the inspected argument
    missing. *)
Definition decorated (target : QueryInterface) (options : option Options)
    (command : string) (args : CallArgs) : Intercepted :=
  fun now w =>
    match method target command with
    | None =>
        ({| settled_at := now;
            settlement := Rejected (TypeError "origMethod is not a function") |},
         w, [])
    | Some origMethod =>
        let (commandPromise, w0) := origMethod args now w in
        let addColumnBranch : option (Promise Value * World * Issued) :=
          if command =? "addColumn" then
            match args with
            | AddColumnArgs foreignTable foreignKey attribute =>
                match getPrimaryTableProps attribute (options_getPrimaryKey options) with
                | Some props =>
                    if truthy_string (primaryTable props) then
                      Some (addColumnTrigger target props foreignTable foreignKey
                              commandPromise now w0)
                    else None
                | None => None
                end
            | _ => None
            end
          else None in
        match addColumnBranch with
        | Some returned => returned
        | None =>
            if command =? "createTable" then
              match args with
              | CreateTableArgs newTable columns =>
                  createTableTriggers target options newTable columns
                    commandPromise now w0
              | _ =>
                  match settlement commandPromise with
                  | Rejected e =>
                      ({| settled_at := resume now commandPromise;
                          settlement := Rejected e |}, w0, [])
                  | Fulfilled _ =>
                      ({| settled_at := resume now commandPromise;
                          settlement :=
                            Rejected (TypeError "Cannot convert undefined or null to object") |},
                       w0, [])
                  end
              end
            else (commandPromise, w0, [])
        end
    end.

(** The three things a call leaves behind. *)
Definition promise_of (r : Promise Value * World * Issued) : Promise Value :=
  fst (fst r).

Definition world_of (r : Promise Value * World * Issued) : World :=
  snd (fst r).

Definition issued_of (r : Promise Value * World * Issued) : Issued :=
  snd r.

(** The calls the interceptor looks into, with the arguments of their
    signatures. *)
Definition intercepted_call (command : string) (args : CallArgs) : Prop :=
  match args with
  | AddColumnArgs _ _ _ => command = "addColumn"
  | CreateTableArgs _ _ => command = "createTable"
  | OtherArgs _ => False
  end.

(** The promises of the statements the interceptor issued. *)
Definition issued_promises (target : QueryInterface) (issued : Issued)
    (now : nat) (w : World) : list (Promise Value) :=
  fst (query_each (sequelize target) (map snd issued) now w).

(** What the caller gets once the underlying operation has succeeded:
    its result, unless a statement of the interceptor was rejected. *)
Definition outcome_after (commandResult : Value) (ps : list (Promise Value))
  : Settlement Value :=
  match earliest_rejection ps with
  | Some (_, e) => Rejected e
  | None => Fulfilled commandResult
  end.

Definition is_fulfilled (A : Type) (p : Promise A) : bool :=
  match settlement p with
  | Fulfilled _ => true
  | Rejected _ => false
  end.

(** What reading a property of the interface yields. *)
Inductive Property : Type :=
| PropHandle (handle : Sequelize)
| PropMethod (call : CallArgs -> Intercepted)
| PropUndefined.

(** Calling a method of the underlying interface directly: the
    interceptor issues nothing. *)
Definition direct (origMethod : CallArgs -> Async) : CallArgs -> Intercepted :=
  fun args now w => let (p, w') := origMethod args now w in (p, w', []).

(** [target[propKey]] *)
Definition target_get (target : QueryInterface) (propKey : string) : Property :=
  if propKey =? "sequelize" then PropHandle (sequelize target)
  else
    match method target propKey with
    | Some origMethod => PropMethod (direct origMethod)
    | None => PropUndefined
    end.

(** [queryInterfaceDecorator], the [get] trap of the proxy, lines 55-121. *)
Definition queryInterfaceDecorator (queryInterface : QueryInterface)
    (options : option Options) (propKey : string) : Property :=
  if propKey =? "sequelize" then target_get queryInterface propKey
  else PropMethod (decorated queryInterface options propKey).

End Interceptor.

(** *** A migration interface to run the interceptor on

    Operations resolve with a number; the state of the database is the
    list of what it was asked to do. *)

Module Demo.

Definition Db : Type := list string.

(** A connection on which every statement succeeds one instant later. *)
Definition accepting : Sequelize nat Db :=
  {| query := fun statement now w =>
       ({| settled_at := now + 1; settlement := Fulfilled 0 |},
        (w ++ [statement])%list) |}.

(** A connection on which every statement fails one instant later. *)
Definition refusing : Sequelize nat Db :=
  {| query := fun statement now w =>
       ({| settled_at := now + 1;
           settlement := Rejected (DatabaseError "Trigger already exists") |},
        (w ++ [statement])%list) |}.

(** [addColumn], [createTable] and [dropTable] succeed with [7] two
    instants after they are called; there is no other method. *)
Definition migrate (name : string) : CallArgs -> Async nat Db :=
  fun _ now w =>
    ({| settled_at := now + 2; settlement := Fulfilled 7 |}, (w ++ [name])%list).

Definition migrations (name : string) : option (CallArgs -> Async nat Db) :=
  if (name =? "addColumn") || (name =? "createTable") || (name =? "dropTable")
  then Some (migrate name)
  else None.

Definition target (db : Sequelize nat Db) : QueryInterface nat Db :=
  {| sequelize := db; method := migrations |}.

(** [{ type: INTEGER, onDelete: 'PARANOID CASCADE', references: table }] *)
Definition cascade_to (table : string) : Attribute :=
  ColumnOptions (Some "PARANOID CASCADE") (Some (RefTable table)).

Definition orders_columns : list (string * Attribute) :=
  [ ("id", DataType "INTEGER");
    ("customer_id", cascade_to "customers");
    ("warehouse_id", cascade_to "warehouses") ].

End Demo.

(* ================================================================== *)
(** ** Relation deduplicator ([src/sequelize-paranoid-delete.ts]) *)

Record ForeignKeyFields : Type :=
  { tableName : string;
    columnName : string;
    referencedTableName : string;
    referencedColumnName : string }.

Section Dedupe.

Variable T : Type.

(** [uniques[hash] = item] on an object whose keys are listed in the
    order of their first assignment.  This is what a plain object does
    for the keys [dedupe] is called with, trigger names, which start
    with [on_]: it lists keys that are array indices first and in
    ascending order, and makes no key of its own for [__proto__], and a
    trigger name is neither. *)
Fixpoint assign (uniques : list (string * T)) (hash : string) (item : T)
  : list (string * T) :=
  match uniques with
  | [] => [(hash, item)]
  | (k, v) :: uniques' =>
      if hash =? k then (k, item) :: uniques'
      else (k, v) :: assign uniques' hash item
  end.

(** The object [uniques] once [forEach] is through the array. *)
Definition uniques_of (array : list T) (hasher : T -> string)
  : list (string * T) :=
  fold_left (fun uniques item => assign uniques (hasher item) item) array [].

(** [dedupe], lines 31-37: [forEach] then [Object.values]. *)
Definition dedupe (array : list T) (hasher : T -> string) : list T :=
  map snd (uniques_of array hasher).

(** [uniques[hash]] *)
Fixpoint lookup (uniques : list (string * T)) (hash : string) : option T :=
  match uniques with
  | [] => None
  | (k, v) :: uniques' => if hash =? k then Some v else lookup uniques' hash
  end.

(** The last element of [array] whose hash is [hash]. *)
Definition last_with (hasher : T -> string) (hash : string) (array : list T)
  : option T :=
  find (fun item => hasher item =? hash) (rev array).

End Dedupe.

(** The keys of a list in the order in which they first occur. *)
Definition first_occurrences (keys : list string) : list string :=
  rev (nodup string_dec (rev keys)).

(** The hasher [getTableRelations] passes to [dedupe], lines 93-95. *)
Definition relationHash (relation : ForeignKeyFields) : string :=
  buildTriggerName (referencedTableName relation) (tableName relation).

(** The pair of tables a relation is between. *)
Definition relation_pair (relation : ForeignKeyFields) : string * string :=
  (referencedTableName relation, tableName relation).

(** Two relations between different pairs of tables whose trigger names
    are the same. *)
Definition colliding_first : ForeignKeyFields :=
  {| tableName := "c"; columnName := "b_id";
     referencedTableName := "a_delete_update_b"; referencedColumnName := "id" |}.

Definition colliding_second : ForeignKeyFields :=
  {| tableName := "b_delete_update_c"; columnName := "a_id";
     referencedTableName := "a"; referencedColumnName := "id" |}.

(** A foreign key from [orders.customer_id] to [customers.id]. *)
Definition orders_customers : ForeignKeyFields :=
  {| tableName := "orders"; columnName := "customer_id";
     referencedTableName := "customers"; referencedColumnName := "id" |}.

(* ================================================================== *)
(** ** Interactive decision engine ([src/sequelize-paranoid-delete.ts]) *)

Record ScanOptions : Type :=
  { schema : string;
    allowListTables : option (list string);
    denyListTables : option (list string);
    tenantColumns : option (list string) }.

(** [array.includes(x)] *)
Definition array_includes (array : list string) (x : string) : bool :=
  existsb (String.eqb x) array.

(** What the tool does that can be seen from outside, in order. *)
Inductive Output : Type :=
| Queried (statement : string)
| LogInfo (message : string)
| LogWarn (message : string)
| LogError (message : string)
| LogErrorObject (error : Error)
| Prompted (prompt : string)
| Exited (status : nat).

(** The variables the line handler closes over. *)
Record Session : Type :=
  { tableRelations : list ForeignKeyFields;
    scanned : bool;
    prompt : string;
    closed : bool }.

Definition initial_prompt : string :=
  "Database will be scanned for tables with deletedAt column. Do you want to continue? (y/n) ".

Definition initial_session : Session :=
  {| tableRelations := []; scanned := false;
     prompt := initial_prompt; closed := false |}.

Definition relation_prompt (relation : ForeignKeyFields) : string :=
  "What do you want to do with " ++ tableName relation ++ " when " ++
  referencedTableName relation ++ " is deleted [c,na,sn,st,s,q,?]? ".

Definition created_message (relation : ForeignKeyFields) : string :=
  "Created trigger for " ++ tableName relation ++ " when " ++
  referencedTableName relation ++ " is marked as deleted.".

(** [rl.close()]: the [close] listener prints and exits. *)
Definition close_outputs : list Output :=
  [LogInfo "There are no more relations to process. Exiting..."; Exited 0].

(** The outputs that are statements handed to the database. *)
Definition is_query (o : Output) : bool :=
  match o with
  | Queried _ => true
  | _ => false
  end.

(** The keys that are acted upon: [y] and [n] before the scan, [c], [s]
    and [q] after it. *)
Definition acts (scanned : bool) (line : string) : bool :=
  if scanned then (line =? "c") || (line =? "s") || (line =? "q")
  else (line =? "y") || (line =? "n").

(** The prompt shows the relation at the head of the queue; with nothing
    pending the session is closed. *)
Definition presenting (s : Session) : Prop :=
  match tableRelations s with
  | relation :: _ => prompt s = relation_prompt relation
  | [] => closed s = true
  end.

Section Engine.

(** The database, the rows a [SELECT] yields and the value read from
    them. *)
Variable World : Type.
Variable Rows : Type.
Variable Scalar : Type.

(** [queryInterface.sequelize.query]; the tool awaits every statement
    before doing anything else, so only the order of effects matters. *)
Variable query : string -> World -> Settlement Rows * World.

(** The helpers imported from [./utils], kept abstract: the two
    statement builders, the reader of a one-value [SELECT] and the two
    introspection queries. *)
Variable buildExistTriggerStatement : string -> string -> string.
Variable buildCreateTriggerStatement : string -> string -> string -> string -> string.
Variable unwrapSelectOneValue : Rows -> Scalar.
Variable getSoftDeleteTableNames :
  string -> World -> Settlement (list string) * World.
Variable getForeignKeysTableRelations :
  list string -> string -> World -> Settlement (list ForeignKeyFields) * World.

(** [!!value] *)
Variable truthy : Scalar -> bool.

(** The existence check of a relation. *)
Definition exist_statement (relation : ForeignKeyFields) : string :=
  buildExistTriggerStatement (referencedTableName relation) (tableName relation).

(** [getNextRelation], lines 39-57.  The array is shared with the
    caller: the queue handed back is the array after the [shift]s. *)
Fixpoint getNextRelation (tableRelations : list ForeignKeyFields) (w : World)
  : Settlement (option ForeignKeyFields) * list ForeignKeyFields * World
    * list Output :=
  match tableRelations with
  | [] => (Fulfilled None, [], w, [])
  | relation :: rest =>
      match query (exist_statement relation) w with
      | (Rejected e, w') =>
          (Rejected e, relation :: rest, w', [Queried (exist_statement relation)])
      | (Fulfilled rows, w') =>
          if truthy (unwrapSelectOneValue rows) then
            match getNextRelation rest w' with
            | (result, queue, w'', outputs) =>
                (result, queue, w'', Queried (exist_statement relation) :: outputs)
            end
          else
            (Fulfilled (Some relation), relation :: rest, w',
             [Queried (exist_statement relation)])
      end
  end.

(** The existence check of [relation], run in [w], finds its trigger
    ([true]) or finds none ([false]) and leaves the database in [w']. *)
Definition checked (relation : ForeignKeyFields) (found : bool) (w w' : World)
  : Prop :=
  exists rows,
    query (exist_statement relation) w = (Fulfilled rows, w') /\
    truthy (unwrapSelectOneValue rows) = found.

(** Every relation of the list, checked in turn from [w], has its
    trigger already. *)
Inductive covered : list ForeignKeyFields -> World -> World -> Prop :=
| covered_nil (w : World) : covered [] w w
| covered_cons (relation : ForeignKeyFields) (rest : list ForeignKeyFields)
    (w w1 w2 : World) :
    checked relation true w w1 -> covered rest w1 w2 ->
    covered (relation :: rest) w w2.

(** What a step of the handler leaves behind: [Some e] in the first
    component is a rejection nobody handles. *)
Definition Step : Type := option Error * Session * World * list Output.

(** [askForNextRelation], lines 59-67. *)
Definition askForNextRelation (s : Session) (w : World) : Step :=
  match getNextRelation (tableRelations s) w with
  | (Rejected e, queue, w', outputs) =>
      (Some e,
       {| tableRelations := queue; scanned := scanned s;
          prompt := prompt s; closed := closed s |},
       w', outputs)
  | (Fulfilled None, queue, w', outputs) =>
      (None,
       {| tableRelations := queue; scanned := scanned s;
          prompt := prompt s; closed := true |},
       w', (outputs ++ close_outputs)%list)
  | (Fulfilled (Some relation), queue, w', outputs) =>
      (None,
       {| tableRelations := queue; scanned := scanned s;
          prompt := relation_prompt relation; closed := closed s |},
       w', (outputs ++ [Prompted (relation_prompt relation)])%list)
  end.

(** [getTableRelations], lines 69-96. *)
Definition getTableRelations (options : ScanOptions) (w : World)
  : Settlement (list ForeignKeyFields) * World :=
  match getSoftDeleteTableNames (schema options) w with
  | (Rejected e, w1) => (Rejected e, w1)
  | (Fulfilled names, w1) =>
      let softDeleteTableNames :=
        filter (fun tableName =>
                  match allowListTables options, denyListTables options with
                  | Some allow, _ => array_includes allow tableName
                  | None, Some deny => negb (array_includes deny tableName)
                  | None, None => true
                  end) names in
      match getForeignKeysTableRelations softDeleteTableNames (schema options) w1 with
      | (Rejected e, w2) => (Rejected e, w2)
      | (Fulfilled relations, w2) =>
          let foreignKeysTableRelations :=
            filter (fun relation =>
                      match tenantColumns options with
                      | Some tenant =>
                          negb (array_includes tenant (referencedColumnName relation))
                      | None => true
                      end) relations in
          (Fulfilled (dedupe foreignKeysTableRelations relationHash), w2)
      end
  end.

Definition with_queue (s : Session) (queue : list ForeignKeyFields) : Session :=
  {| tableRelations := queue; scanned := scanned s;
     prompt := prompt s; closed := closed s |}.

Definition invalid_option (s : Session) (w : World) : Step :=
  (None, s, w, [LogError "Invalid option."; Prompted (prompt s)]).

Definition close_session (s : Session) (w : World) : Step :=
  (None,
   {| tableRelations := tableRelations s; scanned := scanned s;
      prompt := prompt s; closed := true |},
   w, close_outputs).

Definition prepend (outputs : list Output) (step : Step) : Step :=
  match step with
  | (unhandled, s, w, later) => (unhandled, s, w, (outputs ++ later)%list)
  end.

(** The [try] and [catch] blocks of case ['c'], lines 139-146: what they
    print and the state of the database afterwards.  Destructuring
    [tableRelations[0]] throws when the queue is empty. *)
Definition createTrigger (s : Session) (w : World) : list Output * World :=
  match tableRelations s with
  | [] =>
      ([LogErrorObject (TypeError "Cannot destructure property of undefined")], w)
  | relation :: _ =>
      let triggerStatement :=
        buildCreateTriggerStatement
          (referencedTableName relation) (referencedColumnName relation)
          (tableName relation) (columnName relation) in
      match query triggerStatement w with
      | (Fulfilled _, w') =>
          ([Queried triggerStatement; LogInfo (created_message relation)], w')
      | (Rejected e, w') =>
          ([Queried triggerStatement; LogErrorObject e], w')
      end
  end.

(** [tableRelations.shift(); await askForNextRelation(...)] *)
Definition shift_and_ask (s : Session) (w : World) : Step :=
  askForNextRelation (with_queue s (tl (tableRelations s))) w.

Definition not_implemented (s : Session) (w : World) : Step :=
  (None, s, w,
   [if scanned s then LogWarn "Not implemented yet."
    else LogError "Invalid option.";
    Prompted (prompt s)]).

(** The [line] listener of [up], lines 120-217, on the trimmed line. *)
Definition on_line (options : ScanOptions) (line : string)
    (s : Session) (w : World) : Step :=
  if line =? "y" then
    if scanned s then invalid_option s w
    else
      let s1 := {| tableRelations := tableRelations s; scanned := true;
                   prompt := prompt s; closed := closed s |} in
      match getTableRelations options w with
      | (Rejected e, w1) => (Some e, s1, w1, [])
      | (Fulfilled relations, w1) => askForNextRelation (with_queue s1 relations) w1
      end
  else if line =? "c" then
    if negb (scanned s) then invalid_option s w
    else
      let (outputs, w1) := createTrigger s w in
      prepend outputs (shift_and_ask s w1)
  else if (line =? "na") || (line =? "sn") || (line =? "st") then
    not_implemented s w
  else if line =? "s" then
    if negb (scanned s) then invalid_option s w
    else shift_and_ask s w
  else if line =? "?" then
    (None, s, w,
     ((if scanned s then
         [LogInfo "c - cascade."; LogInfo "na - no action."; LogInfo "sn - set null.";
          LogInfo "st - set default."; LogInfo "s - skip."]
       else [LogError "Invalid option."]) ++ [Prompted (prompt s)])%list)
  else if line =? "n" then
    if scanned s then invalid_option s w else close_session s w
  else if line =? "q" then
    if negb (scanned s) then invalid_option s w else close_session s w
  else invalid_option s w.

(** The lines of a session, typed one at a time, each once the handler
    of the line before is through.  No line is handled once [close] has
    made the process exit, nor after a rejection that nobody handles. *)
Fixpoint run (options : ScanOptions) (lines : list string)
    (s : Session) (w : World) : Step :=
  match lines with
  | [] => (None, s, w, [])
  | line :: lines' =>
      if closed s then (None, s, w, [])
      else
        match on_line options line s w with
        | (Some e, s', w', outputs) => (Some e, s', w', outputs)
        | (None, s', w', outputs) => prepend outputs (run options lines' s' w')
        end
  end.

End Engine.

(** *** A database to run the engine on

    The state of the database is the list of the names of its triggers.
    An existence check is answered from it; every other statement is
    rejected. *)

Module DemoEngine.

Definition existPrefix : string := "SELECT EXISTS ".

Definition buildExistTriggerStatement (parentTable childTable : string) : string :=
  existPrefix ++ buildTriggerName parentTable childTable.

Definition query (statement : string) (w : list string)
  : Settlement bool * list string :=
  if prefix existPrefix statement then
    (Fulfilled
       (array_includes w
          (substring (String.length existPrefix)
             (String.length statement - String.length existPrefix) statement)),
     w)
  else (Rejected (DatabaseError "Trigger creation failed"), w).

Definition unwrapSelectOneValue (rows : bool) : bool := rows.

Definition truthy (value : bool) : bool := value.

(** A foreign key from [orders.warehouse_id] to [warehouses.id]. *)
Definition orders_warehouses : ForeignKeyFields :=
  {| tableName := "orders"; columnName := "warehouse_id";
     referencedTableName := "warehouses"; referencedColumnName := "id" |}.

(** A session after the scan, with two relations pending. *)
Definition pending : Session :=
  {| tableRelations := [orders_customers; orders_warehouses];
     scanned := true;
     prompt := relation_prompt orders_customers;
     closed := false |}.

Definition scan : ScanOptions :=
  {| schema := "shop"; allowListTables := None; denyListTables := None;
     tenantColumns := None |}.

Definition getSoftDeleteTableNames (schema : string) (w : list string)
  : Settlement (list string) * list string :=
  (Fulfilled ["customers"; "orders"; "warehouses"], w).

Definition getForeignKeysTableRelations (tables : list string) (schema : string)
    (w : list string) : Settlement (list ForeignKeyFields) * list string :=
  (Fulfilled [orders_customers; orders_warehouses], w).

End DemoEngine.

(** *** A database that cannot be scanned *)

Module DemoScan.

Definition getSoftDeleteTableNames (schema : string) (w : list string)
  : Settlement (list string) * list string :=
  (Rejected (DatabaseError "connect ECONNREFUSED"), w).

(** A scan that keeps away from the tenant key and from the audit
    table. *)
Definition filtered : ScanOptions :=
  {| schema := "shop"; allowListTables := None;
     denyListTables := Some ["audit"]; tenantColumns := Some ["tenant_id"] |}.

End DemoScan.

(* ================================================================== *)
(** * Properties *)

(** ** Strings and lists of characters *)

Lemma chars_append (s1 s2 : string) :
  Str.chars (s1 ++ s2) = (Str.chars s1 ++ Str.chars s2)%list.
Proof.
  induction s1 as [|c s1 IH]; simpl; [reflexivity|].
  unfold Str.chars in *. simpl. now rewrite IH.
Qed.

Lemma chars_inj (s1 s2 : string) : Str.chars s1 = Str.chars s2 -> s1 = s2.
Proof.
  intros H. rewrite <- (string_of_list_ascii_of_string s1).
  rewrite <- (string_of_list_ascii_of_string s2).
  unfold Str.chars in H. now rewrite H.
Qed.

Lemma of_chars_append (l1 l2 : list ascii) :
  string_of_list_ascii (l1 ++ l2) =
  string_of_list_ascii l1 ++ string_of_list_ascii l2.
Proof.
  induction l1 as [|c l1 IH]; simpl; [reflexivity|]. now rewrite IH.
Qed.

Lemma append_assoc (s1 s2 s3 : string) : (s1 ++ s2) ++ s3 = s1 ++ s2 ++ s3.
Proof.
  induction s1 as [|c s1 IH]; simpl; [reflexivity|]. now rewrite IH.
Qed.

Lemma append_inv_head (s t1 t2 : string) : s ++ t1 = s ++ t2 -> t1 = t2.
Proof.
  induction s as [|c s IH]; simpl; intros H; [exact H|].
  injection H as H. auto.
Qed.

Lemma prefix_append (m v : string) : prefix m (m ++ v) = true.
Proof.
  induction m as [|c m IH]; simpl; [now destruct v|].
  destruct (ascii_dec c c) as [_|n]; [exact IH | now elim n].
Qed.

Lemma includes_prefix (m hay : string) :
  prefix m hay = true -> Str.includes m hay = true.
Proof.
  intros H. destruct hay; unfold Str.includes; fold Str.includes;
    now rewrite H.
Qed.

Lemma includes_append (m u v : string) : Str.includes m (u ++ m ++ v) = true.
Proof.
  induction u as [|c u IH]; simpl.
  - apply includes_prefix, prefix_append.
  - rewrite IH. apply orb_true_r.
Qed.

(** ** The separator of trigger names *)

(** A word that sits in front of the separator and leaves a text that
    again starts with the separator is empty or starts with
    [_delete_update]: the separator overlaps itself in its underscore
    only. *)
Lemma separator_overlap (l x y : list ascii) :
  (Str.chars "_delete_update_" ++ y = l ++ Str.chars "_delete_update_" ++ x)%list ->
  l = [] \/ exists v, l = (Str.chars "_delete_update" ++ v)%list.
Proof.
  intros H. destruct l as [|c l]; [now left|right].
  cbn in H. injection H as <- H.
  do 13 (destruct l as [|? l]; [cbn in H; discriminate H|];
         cbn in H; injection H as <- H).
  exists l. reflexivity.
Qed.

Lemma separator_split (a b a' b' : list ascii) :
  (a ++ Str.chars "_delete_update_" ++ b =
   a' ++ Str.chars "_delete_update_" ++ b')%list ->
  a = a' \/
  (exists u v, a = (u ++ Str.chars "_delete_update" ++ v)%list) \/
  (exists u v, a' = (u ++ Str.chars "_delete_update" ++ v)%list).
Proof.
  intros H. apply app_eq_app in H. destruct H as [l [[Ha Hl]|[Ha Hl]]].
  - apply separator_overlap in Hl. destruct Hl as [->|[v ->]].
    + left. now rewrite app_nil_r in Ha.
    + right; left. now exists a', v.
  - apply separator_overlap in Hl. destruct Hl as [->|[v ->]].
    + left. now rewrite app_nil_r in Ha.
    + right; right. now exists a, v.
Qed.

Lemma includes_of_chars (m s : string) (u v : list ascii) :
  Str.chars s = (u ++ Str.chars m ++ v)%list -> Str.includes m s = true.
Proof.
  intros H.
  assert (E : s = string_of_list_ascii u ++ m ++ string_of_list_ascii v).
  { rewrite <- (string_of_list_ascii_of_string s). fold (Str.chars s).
    rewrite H, !of_chars_append. unfold Str.chars.
    now rewrite string_of_list_ascii_of_string. }
  rewrite E. apply includes_append.
Qed.

Lemma buildTriggerName_chars (p c : string) :
  Str.chars (buildTriggerName p c) =
  (Str.chars "on_" ++ Str.chars p ++ Str.chars "_delete_update_" ++ Str.chars c)%list.
Proof. unfold buildTriggerName. now rewrite !chars_append. Qed.

(** Trigger names tell pairs of tables apart as long as the parent
    tables do not have [_delete_update] in their names. *)
Lemma trigger_name_inj (p c p' c' : string) :
  Str.includes "_delete_update" p = false ->
  Str.includes "_delete_update" p' = false ->
  buildTriggerName p c = buildTriggerName p' c' -> p = p' /\ c = c'.
Proof.
  intros Hp Hp' H.
  assert (Hc := f_equal Str.chars H). rewrite !buildTriggerName_chars in Hc.
  apply app_inv_head in Hc.
  destruct (separator_split _ _ _ _ Hc) as [E|[[u [v E]]|[u [v E]]]].
  - apply chars_inj in E. subst p'. split; [reflexivity|].
    unfold buildTriggerName in H. now do 3 apply append_inv_head in H.
  - apply (includes_of_chars "_delete_update") in E. congruence.
  - apply (includes_of_chars "_delete_update") in E. congruence.
Qed.

(** ** C1 *)

(** C1, as stated, fails: two different pairs of tables are given the
    same trigger name, and so are a pair and its swap. *)
Lemma buildTriggerName_collision :
  buildTriggerName "a" "b_delete_update_c" = buildTriggerName "a_delete_update_b" "c" /\
  ("a", "b_delete_update_c") <> ("a_delete_update_b", "c") /\
  buildTriggerName "a" "a_delete_update_a" = buildTriggerName "a_delete_update_a" "a".
Proof. repeat split. discriminate. Qed.

(** C1, amended: among parent tables whose names do not contain
    [_delete_update], two pairs of tables have the same trigger name
    exactly when they are the same pair; in particular the name is a
    function of the pair, distinct pairs have distinct names, and the
    name of [(a, b)] is that of [(b, a)] only when [a = b]. *)
Theorem buildTriggerName_separates (p c p' c' : string) :
  Str.includes "_delete_update" p = false ->
  Str.includes "_delete_update" p' = false ->
  (buildTriggerName p c = buildTriggerName p' c' <-> p = p' /\ c = c').
Proof.
  intros Hp Hp'. split; [now apply trigger_name_inj|now intros [-> ->]].
Qed.

Lemma buildTriggerName_separates_witness :
  Str.includes "_delete_update" "customers" = false /\
  Str.includes "_delete_update" "orders" = false /\
  buildTriggerName "customers" "orders" <> buildTriggerName "orders" "customers".
Proof.
  split; [reflexivity|split; [reflexivity|]]. intros H.
  apply (buildTriggerName_separates "customers" "orders" "orders" "customers") in H;
    [destruct H as [H _]; discriminate H | reflexivity | reflexivity].
Defined.

(** ** Words of a text *)

Lemma append_nil_r (s : string) : s ++ EmptyString = s.
Proof. induction s as [|c s IH]; simpl; [reflexivity|]. now rewrite IH. Qed.

Lemma no_space_append (s1 s2 : string) :
  Str.no_space (s1 ++ s2) = Str.no_space s1 && Str.no_space s2.
Proof.
  induction s1 as [|c s1 IH]; simpl; [reflexivity|].
  now rewrite IH, andb_assoc.
Qed.

Lemma is_empty_append (s1 s2 : string) :
  Str.is_empty (s1 ++ s2) = Str.is_empty s1 && Str.is_empty s2.
Proof. now destruct s1. Qed.

Lemma words_from_word (w cur s : string) :
  Str.no_space w = true ->
  Str.words_from cur (w ++ s) = Str.words_from (cur ++ w) s.
Proof.
  revert cur. induction w as [|c w IH]; intros cur H; simpl.
  - now rewrite append_nil_r.
  - simpl in H. apply andb_true_iff in H. destruct H as [Hc Hw].
    apply negb_true_iff in Hc. rewrite Hc, IH by exact Hw.
    rewrite append_assoc. reflexivity.
Qed.

Lemma words_from_spaces (g s : string) :
  Str.all_space g = true -> Str.words_from EmptyString (g ++ s) = Str.words_from EmptyString s.
Proof.
  induction g as [|c g IH]; simpl; intros H; [reflexivity|].
  apply andb_true_iff in H. destruct H as [-> H]. simpl. auto.
Qed.

Lemma words_from_gap (g cur s : string) :
  Str.all_space g = true -> Str.is_empty g = false -> Str.is_empty cur = false ->
  Str.words_from cur (g ++ s) = cur :: Str.words_from EmptyString s.
Proof.
  destruct g as [|c g]; simpl; intros H Hg Hcur; [discriminate|].
  apply andb_true_iff in H. destruct H as [-> H].
  unfold Str.flush. rewrite Hcur. f_equal. now apply words_from_spaces.
Qed.

Lemma words_from_tail (cur tail : string) :
  Str.all_space tail = true -> Str.is_empty cur = false ->
  Str.words_from cur tail = [cur].
Proof.
  destruct tail as [|c g]; simpl; intros H Hcur.
  - unfold Str.flush. now rewrite Hcur.
  - apply andb_true_iff in H. destruct H as [-> H].
    unfold Str.flush. rewrite Hcur. f_equal.
    rewrite <- (append_nil_r g). now rewrite words_from_spaces by exact H.
Qed.

Ltac split_spaced H :=
  unfold Str.spaced in H; simpl in H;
  repeat (apply andb_true_iff in H; destruct H as [H ?]).

(** The words of a laid out text are the words it was laid out from. *)
Lemma words_layout (items : list (string * string)) (tail : string) :
  forallb Str.spaced items = true -> Str.all_space tail = true ->
  Str.words (layout items tail) = map snd items.
Proof.
  intros H Ht. unfold Str.words.
  induction items as [|[g w] items IH]; simpl.
  - rewrite <- (append_nil_r tail). now rewrite words_from_spaces.
  - simpl in H. apply andb_true_iff in H. destruct H as [Hi H].
    split_spaced Hi.
    rewrite words_from_spaces by assumption.
    rewrite words_from_word by assumption. simpl.
    destruct items as [|[g' w'] items'].
    + simpl. apply words_from_tail; [assumption|]. now apply negb_true_iff.
    + rewrite <- IH by exact H. simpl.
      simpl in H. apply andb_true_iff in H. destruct H as [Hi' _].
      split_spaced Hi'.
      rewrite words_from_gap; try assumption; try now apply negb_true_iff.
      now rewrite (words_from_spaces g') by assumption.
Qed.

(** ** C4 *)

(** C4: whatever the four names, the statement is the words
    [CREATE TRIGGER on_<parent>_delete_update_<child> AFTER UPDATE ON
    <parent> FOR EACH ROW BEGIN IF OLD.deletedAt IS NULL AND
    NEW.deletedAt IS NOT NULL THEN UPDATE <child> SET <child>.deletedAt =
    NOW() WHERE <child>.<childKey> = NEW.<parentKey>; END IF; END;], set
    out over the lines of the template; and when the names are words
    themselves (no white space, tables not empty) these are exactly the
    words SQL reads in it. *)
Theorem createParanoidDeleteTriggerStatement_shape
    (parentTable parentKey childTable childKey : string) :
  createParanoidDeleteTriggerStatement parentTable parentKey childTable childKey =
    layout (trigger_layout parentTable parentKey childTable childKey) Str.nl /\
  (Str.no_space parentTable = true -> Str.no_space parentKey = true ->
   Str.no_space childTable = true -> Str.no_space childKey = true ->
   Str.is_empty parentTable = false -> Str.is_empty childTable = false ->
   Str.words
     (createParanoidDeleteTriggerStatement parentTable parentKey childTable childKey) =
   trigger_words parentTable parentKey childTable childKey).
Proof.
  assert (E : createParanoidDeleteTriggerStatement parentTable parentKey childTable childKey =
              layout (trigger_layout parentTable parentKey childTable childKey) Str.nl).
  { unfold createParanoidDeleteTriggerStatement, trigger_layout, trigger_gaps,
      trigger_words, buildTriggerName.
    simpl. repeat (rewrite !append_assoc; simpl). reflexivity. }
  split; [exact E|].
  intros Hp Hpk Hc Hck Ep Ec. rewrite E, words_layout.
  - reflexivity.
  - unfold trigger_layout, trigger_gaps, trigger_words, buildTriggerName, Str.spaced.
    cbv [combine forallb fst snd].
    rewrite !no_space_append, !is_empty_append, Hp, Hpk, Hc, Hck, Ep, Ec.
    reflexivity.
  - reflexivity.
Qed.

Lemma createParanoidDeleteTriggerStatement_shape_witness :
  Str.words
    (createParanoidDeleteTriggerStatement "customers" "id" "orders" "customer_id") =
  trigger_words "customers" "id" "orders" "customer_id".
Proof.
  apply (createParanoidDeleteTriggerStatement_shape
           "customers" "id" "orders" "customer_id"); reflexivity.
Defined.

(** ** The object [uniques] *)

Section DedupeFacts.

Variable T : Type.
Variable hasher : T -> string.

Lemma lookup_assign (uniques : list (string * T)) (k k' : string) (v : T) :
  lookup (assign uniques k v) k' = if k' =? k then Some v else lookup uniques k'.
Proof.
  induction uniques as [|[k0 v0] u IH]; simpl.
  - reflexivity.
  - destruct (k =? k0) eqn:E; simpl.
    + apply String.eqb_eq in E. subst k0. now destruct (k' =? k).
    + rewrite IH. destruct (k' =? k0) eqn:E'; [|reflexivity].
      apply String.eqb_eq in E'. subst k'.
      rewrite String.eqb_sym, E. reflexivity.
Qed.

Lemma keys_assign (uniques : list (string * T)) (k k' : string) (v : T) :
  In k' (map fst (assign uniques k v)) <-> k' = k \/ In k' (map fst uniques).
Proof.
  induction uniques as [|[k0 v0] u IH]; simpl.
  - intuition.
  - destruct (k =? k0) eqn:E; simpl.
    + apply String.eqb_eq in E. subst k0. intuition.
    + rewrite IH. intuition.
Qed.

Lemma keys_assign_NoDup (uniques : list (string * T)) (k : string) (v : T) :
  NoDup (map fst uniques) -> NoDup (map fst (assign uniques k v)).
Proof.
  induction uniques as [|[k0 v0] u IH]; simpl; intros H.
  - constructor; [intros []|constructor].
  - inversion_clear H as [|? ? Hn Hd]. destruct (k =? k0) eqn:E; simpl.
    + now constructor.
    + constructor; [|auto]. rewrite keys_assign. intros [->|Hin]; [|auto].
      now rewrite String.eqb_refl in E.
Qed.

Lemma lookup_In (uniques : list (string * T)) (k : string) (v : T) :
  NoDup (map fst uniques) -> (In (k, v) uniques <-> lookup uniques k = Some v).
Proof.
  induction uniques as [|[k0 v0] u IH]; simpl; intros H.
  - split; [intros []|discriminate].
  - inversion_clear H as [|? ? Hn Hd]. destruct (k =? k0) eqn:E.
    + apply String.eqb_eq in E. subst k0. split.
      * intros [H|H]; [congruence|]. elim Hn. apply (in_map fst) in H. exact H.
      * intros H. left. congruence.
    + rewrite <- (IH Hd). split; [|auto]. intros [H|H]; [|exact H].
      injection H as -> _. now rewrite String.eqb_refl in E.
Qed.

Lemma uniques_of_snoc (array : list T) (item : T) :
  uniques_of (array ++ [item]) hasher = assign (uniques_of array hasher) (hasher item) item.
Proof. unfold uniques_of. now rewrite fold_left_app. Qed.

Lemma last_with_snoc (k : string) (array : list T) (item : T) :
  last_with hasher k (array ++ [item]) =
  if hasher item =? k then Some item else last_with hasher k array.
Proof. unfold last_with. now rewrite rev_app_distr. Qed.

Lemma last_with_hash (k : string) (array : list T) (x : T) :
  last_with hasher k array = Some x -> hasher x = k /\ In x array.
Proof.
  unfold last_with. intros H. apply find_some in H. destruct H as [Hin E].
  apply String.eqb_eq in E. split; [exact E|]. now apply in_rev.
Qed.

Lemma uniques_of_NoDup (array : list T) : NoDup (map fst (uniques_of array hasher)).
Proof.
  induction array as [|item array IH] using rev_ind.
  - constructor.
  - rewrite uniques_of_snoc. now apply keys_assign_NoDup.
Qed.

Lemma uniques_of_lookup (array : list T) (k : string) :
  lookup (uniques_of array hasher) k = last_with hasher k array.
Proof.
  induction array as [|item array IH] using rev_ind.
  - reflexivity.
  - rewrite uniques_of_snoc, lookup_assign, last_with_snoc, IH.
    now rewrite (String.eqb_sym k).
Qed.

Lemma uniques_of_keys (array : list T) (k : string) :
  In k (map fst (uniques_of array hasher)) <-> In k (map hasher array).
Proof.
  induction array as [|item array IH] using rev_ind.
  - simpl. tauto.
  - rewrite uniques_of_snoc, keys_assign, IH, map_app, in_app_iff. simpl.
    intuition.
Qed.

Lemma uniques_of_entry (array : list T) (k : string) (v : T) :
  In (k, v) (uniques_of array hasher) <-> last_with hasher k array = Some v.
Proof.
  rewrite lookup_In by apply uniques_of_NoDup. now rewrite uniques_of_lookup.
Qed.

Lemma uniques_of_hashes (array : list T) :
  map hasher (map snd (uniques_of array hasher)) = map fst (uniques_of array hasher).
Proof.
  assert (H : forall k v, In (k, v) (uniques_of array hasher) -> hasher v = k).
  { intros k v Hin. apply uniques_of_entry, last_with_hash in Hin. tauto. }
  induction (uniques_of array hasher) as [|[k v] u IH]; simpl; [reflexivity|].
  rewrite (H k v) by now left. f_equal. apply IH. intros; apply H. now right.
Qed.

(** No two elements of the result have the same hash. *)
Lemma dedupe_NoDup (array : list T) : NoDup (map hasher (dedupe array hasher)).
Proof.
  unfold dedupe.
  rewrite uniques_of_hashes. apply uniques_of_NoDup.
Qed.

(** The hashes of the result are those of the array. *)
Lemma dedupe_hashes (array : list T) (k : string) :
  In k (map hasher (dedupe array hasher)) <-> In k (map hasher array).
Proof.
  unfold dedupe.
  rewrite uniques_of_hashes. apply uniques_of_keys.
Qed.

(** The elements of the result are the last ones of their hash. *)
Lemma dedupe_last (array : list T) (x : T) :
  In x (dedupe array hasher) <-> last_with hasher (hasher x) array = Some x.
Proof.
  unfold dedupe. rewrite in_map_iff. split.
  - intros [[k v] [E Hin]]. simpl in E. subst v.
    apply uniques_of_entry in Hin.
    destruct (last_with_hash _ _ Hin) as [<- _]. exact Hin.
  - intros H. exists (hasher x, x). split; [reflexivity|].
    now apply uniques_of_entry.
Qed.

End DedupeFacts.

(** ** C3 *)

Lemma NoDup_map_compose (A B C : Type) (f : A -> B) (g : B -> C) (l : list A) :
  NoDup (map (fun x => g (f x)) l) -> NoDup (map f l).
Proof.
  induction l as [|x l IH]; simpl; intros H; [constructor|].
  inversion_clear H as [|? ? Hn Hd]. constructor; [|auto].
  intros Hin. apply Hn. apply in_map_iff in Hin. destruct Hin as [y [E Hy]].
  apply in_map_iff. exists y. split; [now rewrite E|exact Hy].
Qed.

(** C3, as stated, fails: of two relations between different pairs of
    tables whose trigger names are the same, only the second is kept, so
    the pair of the first is in the input and not in the output. *)
Lemma dedupe_loses_pair :
  relation_pair colliding_first <> relation_pair colliding_second /\
  dedupe [colliding_first; colliding_second] relationHash = [colliding_second] /\
  In (relation_pair colliding_first)
     (map relation_pair [colliding_first; colliding_second]) /\
  ~ In (relation_pair colliding_first)
       (map relation_pair (dedupe [colliding_first; colliding_second] relationHash)).
Proof.
  split; [discriminate|]. split; [reflexivity|]. split; [now left|].
  intros [H|[]]. discriminate H.
Qed.

(** C3, amended: the key is the trigger name of the pair.  The output
    has no two relations with the same trigger name, the trigger names
    of the output are those of the input, and a relation is kept exactly
    when it is the last of the input with its trigger name.  As to pairs
    of tables: no two kept relations are between the same pair, every
    kept pair is a pair of the input, and every pair of the input is kept
    when no referenced table of the input has [_delete_update] in its
    name. *)
Theorem dedupe_relations (array : list ForeignKeyFields) :
  let kept := dedupe array relationHash in
  NoDup (map relationHash kept) /\
  (forall name, In name (map relationHash kept) <-> In name (map relationHash array)) /\
  (forall relation,
     In relation kept <->
     last_with relationHash (relationHash relation) array = Some relation) /\
  NoDup (map relation_pair kept) /\
  (forall pair, In pair (map relation_pair kept) -> In pair (map relation_pair array)) /\
  (Forall (fun relation =>
             Str.includes "_delete_update" (referencedTableName relation) = false)
          array ->
   forall pair, In pair (map relation_pair array) -> In pair (map relation_pair kept)).
Proof.
  intros kept. subst kept.
  assert (Hsub : forall r, In r (dedupe array relationHash) -> In r array).
  { intros r Hr. apply dedupe_last, last_with_hash in Hr. tauto. }
  repeat split.
  - apply dedupe_NoDup.
  - apply dedupe_hashes.
  - apply dedupe_hashes.
  - apply dedupe_last.
  - apply dedupe_last.
  - apply (NoDup_map_compose relation_pair
             (fun pair => buildTriggerName (fst pair) (snd pair))).
    apply (dedupe_NoDup relationHash).
  - intros pair Hin. apply in_map_iff in Hin. destruct Hin as [r [E Hr]].
    apply in_map_iff. exists r. auto.
  - intros Hclean pair Hin. apply in_map_iff in Hin. destruct Hin as [r [E Hr]].
    assert (Hk : In (relationHash r) (map relationHash (dedupe array relationHash))).
    { apply dedupe_hashes. now apply in_map. }
    apply in_map_iff in Hk. destruct Hk as [r' [E' Hr']].
    apply in_map_iff. exists r'. split; [|exact Hr'].
    rewrite Forall_forall in Hclean.
    unfold relationHash in E'. apply trigger_name_inj in E'.
    + subst pair. unfold relation_pair. destruct E' as [-> ->]. reflexivity.
    + apply Hclean. auto.
    + apply Hclean. exact Hr.
Qed.

Lemma dedupe_relations_witness :
  In (relation_pair orders_customers)
     (map relation_pair (dedupe [orders_customers; orders_customers] relationHash)).
Proof.
  apply (dedupe_relations [orders_customers; orders_customers]).
  - repeat constructor.
  - now left.
Defined.

(** ** The annotation *)

Lemma getPrimaryTableProps_annotated (references : References)
    (getPrimaryKey : option (string -> string)) :
  getPrimaryTableProps
    (ColumnOptions (Some "PARANOID CASCADE") (Some references)) getPrimaryKey =
  Some {| primaryTable := referenced_table references;
          primaryKey := resolved_key references getPrimaryKey |}.
Proof. destruct references as [table|model [key|]]; reflexivity. Qed.

(** [getPrimaryTableProps] answers exactly on the column specifications
    that carry the annotation. *)
Lemma getPrimaryTableProps_cases (attribute : Attribute)
    (getPrimaryKey : option (string -> string)) :
  (carries_annotation attribute = true /\
   exists references,
     attribute = ColumnOptions (Some "PARANOID CASCADE") (Some references) /\
     getPrimaryTableProps attribute getPrimaryKey =
     Some {| primaryTable := referenced_table references;
             primaryKey := resolved_key references getPrimaryKey |}) \/
  (carries_annotation attribute = false /\
   getPrimaryTableProps attribute getPrimaryKey = None).
Proof.
  destruct attribute as [name|[onDelete|] [references|]];
    try (right; split; reflexivity).
  - simpl. destruct (onDelete =? "PARANOID CASCADE") eqn:E.
    + apply String.eqb_eq in E. subst onDelete. left. split; [reflexivity|].
      exists references. split; [reflexivity|].
      apply getPrimaryTableProps_annotated.
    + right. split; reflexivity.
  - right. simpl. now destruct (onDelete =? "PARANOID CASCADE").
Qed.

Lemma truthy_string_nonempty (s : string) : s <> EmptyString -> truthy_string s = true.
Proof. destruct s; [congruence|reflexivity]. Qed.

Lemma eqb_neq_false (s t : string) : s <> t -> (s =? t) = false.
Proof. intros H. now apply String.eqb_neq. Qed.

Section InterceptorFacts.

Variable Value : Type.
Variable World : Type.
Variable target : QueryInterface Value World.
Variable options : option Options.

(** ** C2 *)

(** C2: reading [sequelize] through the decorated interface yields the
    property of the underlying interface itself, and calling any other
    method than [addColumn] and [createTable] through it yields the
    promise of the underlying method, leaves the database as the
    underlying method does and issues no statement. *)
Theorem decorator_passes_through :
  queryInterfaceDecorator target options "sequelize" = target_get target "sequelize" /\
  queryInterfaceDecorator target options "sequelize" = PropHandle (sequelize target) /\
  forall (command : string) (origMethod : CallArgs -> Async Value World),
    command <> "sequelize" -> command <> "addColumn" -> command <> "createTable" ->
    method target command = Some origMethod ->
    queryInterfaceDecorator target options command =
      PropMethod (decorated target options command) /\
    target_get target command = PropMethod (direct origMethod) /\
    forall (args : CallArgs) (now : nat) (w : World),
      decorated target options command args now w = direct origMethod args now w /\
      promise_of (decorated target options command args now w) =
        fst (origMethod args now w) /\
      world_of (decorated target options command args now w) =
        snd (origMethod args now w) /\
      issued_of (decorated target options command args now w) = [].
Proof.
  split; [reflexivity|]. split; [reflexivity|].
  intros command origMethod Hs Ha Hc Hm.
  unfold queryInterfaceDecorator, target_get.
  rewrite (eqb_neq_false Hs), Hm. split; [reflexivity|]. split; [reflexivity|].
  intros args now w.
  assert (E : decorated target options command args now w =
              direct origMethod args now w).
  { unfold decorated, direct. rewrite Hm.
    rewrite (eqb_neq_false Ha), (eqb_neq_false Hc).
    now destruct (origMethod args now w). }
  rewrite E. unfold direct, promise_of, world_of, issued_of.
  now destruct (origMethod args now w).
Qed.

End InterceptorFacts.

Lemma decorator_passes_through_witness :
  decorated (Demo.target Demo.refusing) None "dropTable" (OtherArgs ["orders"]) 0 [] =
  ({| settled_at := 2; settlement := Fulfilled 7 |}, ["dropTable"], []).
Proof.
  destruct (decorator_passes_through (Demo.target Demo.refusing) None)
    as [_ [_ H]].
  destruct (H "dropTable" (Demo.migrate "dropTable")) as [_ [_ H']];
    [discriminate | discriminate | discriminate | reflexivity |].
  exact (proj1 (H' (OtherArgs ["orders"]) 0 [])).
Defined.

(** ** C5 *)

Section ColumnAdd.

Variable Value : Type.
Variable World : Type.
Variable target : QueryInterface Value World.
Variable options : option Options.

(** What [addColumn] does with an annotated column whose parent table
    has a name, once the underlying operation is known. *)
Lemma decorated_addColumn_annotated
    (foreignTable foreignKey : string) (references : References)
    (origMethod : CallArgs -> Async Value World) (now : nat) (w : World)
    (commandPromise : Promise Value) (w0 : World) :
  referenced_table references <> EmptyString ->
  method target "addColumn" = Some origMethod ->
  origMethod
    (AddColumnArgs foreignTable foreignKey
       (ColumnOptions (Some "PARANOID CASCADE") (Some references))) now w =
    (commandPromise, w0) ->
  decorated target options "addColumn"
    (AddColumnArgs foreignTable foreignKey
       (ColumnOptions (Some "PARANOID CASCADE") (Some references))) now w =
  addColumnTrigger target
    {| primaryTable := referenced_table references;
       primaryKey := resolved_key references (options_getPrimaryKey options) |}
    foreignTable foreignKey commandPromise now w0.
Proof.
  intros Hname Hm Hcall. unfold decorated. rewrite Hm, Hcall.
  replace ("addColumn" =? "addColumn") with true by reflexivity.
  rewrite getPrimaryTableProps_annotated.
  cbv beta iota. simpl primaryTable.
  now rewrite (truthy_string_nonempty Hname).
Qed.

(** C5: the key of an annotation is its explicit [references.key] if it
    has one, else what the supplied [getPrimaryKey] answers for the
    referenced table, else [id]; an [addColumn] whose annotation names
    table [T] and no key, on a migration that succeeds, issues exactly
    one statement, the trigger on [T] keyed by [id] without a resolver
    and by the resolver's answer with one; and for every annotation on a
    named table such a call hands exactly that one statement, with the
    key so resolved, to [sequelize.query], in the database as the
    migration left it and once the migration has settled, leaves the
    database as that query does, and settles when that query has, with
    the migration's result or with the query's rejection. *)
Theorem primary_key_precedence :
  (forall (references : References) (getPrimaryKey : option (string -> string)),
     getPrimaryTableProps
       (ColumnOptions (Some "PARANOID CASCADE") (Some references)) getPrimaryKey =
     Some {| primaryTable := referenced_table references;
             primaryKey := resolved_key references getPrimaryKey |}) /\
  (forall (T foreignTable foreignKey : string) (references : References)
          (origMethod : CallArgs -> Async Value World) (now : nat) (w : World)
          (commandResult : Value),
     let args :=
       AddColumnArgs foreignTable foreignKey
         (ColumnOptions (Some "PARANOID CASCADE") (Some references)) in
     references = RefTable T \/ references = RefModel T None ->
     T <> EmptyString ->
     method target "addColumn" = Some origMethod ->
     settlement (fst (origMethod args now w)) = Fulfilled commandResult ->
     issued_of (decorated target options "addColumn" args now w) =
     [ (resume now (fst (origMethod args now w)),
        createParanoidDeleteTriggerStatement T
          match options_getPrimaryKey options with
          | Some resolver => resolver T
          | None => "id"
          end
          foreignTable foreignKey) ]) /\
  (forall (foreignTable foreignKey : string) (references : References)
          (origMethod : CallArgs -> Async Value World) (now : nat) (w : World)
          (commandResult : Value),
     let args :=
       AddColumnArgs foreignTable foreignKey
         (ColumnOptions (Some "PARANOID CASCADE") (Some references)) in
     referenced_table references <> EmptyString ->
     method target "addColumn" = Some origMethod ->
     settlement (fst (origMethod args now w)) = Fulfilled commandResult ->
     let t1 := resume now (fst (origMethod args now w)) in
     let statement :=
       createParanoidDeleteTriggerStatement (referenced_table references)
         match references with
         | RefModel _ (Some key) => key
         | _ =>
             match options_getPrimaryKey options with
             | Some resolver => resolver (referenced_table references)
             | None => "id"
             end
         end
         foreignTable foreignKey in
     let executed :=
       query (sequelize target) statement t1 (snd (origMethod args now w)) in
     decorated target options "addColumn" args now w =
     ({| settled_at := resume t1 (fst executed);
         settlement :=
           match settlement (fst executed) with
           | Fulfilled _ => Fulfilled commandResult
           | Rejected e => Rejected e
           end |},
      snd executed,
      [(t1, statement)])).
Proof.
  split; [apply getPrimaryTableProps_annotated|]. split.
  - intros T foreignTable foreignKey references origMethod now w commandResult
      args Href HT Hm Hok.
    assert (Hname : referenced_table references = T) by now destruct Href; subst.
    assert (Hkey : resolved_key references (options_getPrimaryKey options) =
                   match options_getPrimaryKey options with
                   | Some resolver => resolver T
                   | None => "id"
                   end) by now destruct Href; subst.
    destruct (origMethod args now w) as [commandPromise w0] eqn:Hcall.
    simpl in Hok. simpl fst. unfold args in *.
    assert (Hne : referenced_table references <> EmptyString) by now rewrite Hname.
    erewrite decorated_addColumn_annotated; [|exact Hne|exact Hm|exact Hcall].
    unfold addColumnTrigger. rewrite Hok. simpl primaryTable.
    simpl primaryKey. rewrite Hname, Hkey.
    destruct (query (sequelize target) _ _ _) as [q w1].
    now destruct (settlement q).
  - intros foreignTable foreignKey references origMethod now w commandResult
      args Hne Hm Hok.
    destruct (origMethod args now w) as [commandPromise w0] eqn:Hcall.
    simpl in Hok. simpl fst. simpl snd. unfold args in *.
    erewrite decorated_addColumn_annotated; [|exact Hne|exact Hm|exact Hcall].
    unfold addColumnTrigger. rewrite Hok. simpl primaryTable. simpl primaryKey.
    fold (resolved_key references (options_getPrimaryKey options)).
    cbv zeta.
    change (match references with
            | RefModel _ (Some key) => key
            | _ => match options_getPrimaryKey options with
                   | Some resolver => resolver (referenced_table references)
                   | None => "id"
                   end
            end) with (resolved_key references (options_getPrimaryKey options)).
    destruct (query (sequelize target) _ _ w0) as [q w1]. simpl fst. simpl snd.
    destruct (settlement q); reflexivity.
Qed.

End ColumnAdd.

Lemma primary_key_precedence_witness :
  issued_of
    (decorated (Demo.target Demo.accepting)
       (Some {| getPrimaryKey := Some (fun table => table ++ "_id") |})
       "addColumn"
       (AddColumnArgs "orders" "customer" (Demo.cascade_to "customers")) 0 []) =
  [ (2, createParanoidDeleteTriggerStatement "customers" "customers_id"
          "orders" "customer") ] /\
  decorated (Demo.target Demo.accepting)
    (Some {| getPrimaryKey := Some (fun table => table ++ "_id") |})
    "addColumn"
    (AddColumnArgs "orders" "customer"
       (ColumnOptions (Some "PARANOID CASCADE")
          (Some (RefModel "customers" (Some "uuid"))))) 0 [] =
  ({| settled_at := 3; settlement := Fulfilled 7 |},
   [ "addColumn";
     createParanoidDeleteTriggerStatement "customers" "uuid" "orders" "customer" ],
   [ (2, createParanoidDeleteTriggerStatement "customers" "uuid"
           "orders" "customer") ]).
Proof.
  split.
  - apply (proj1 (proj2 (primary_key_precedence (Demo.target Demo.accepting)
                    (Some {| getPrimaryKey := Some (fun table => table ++ "_id") |})))
             "customers" "orders" "customer" (RefTable "customers")
             (Demo.migrate "addColumn") 0 [] 7);
      [now left | discriminate | reflexivity | reflexivity].
  - refine (proj2 (proj2 (primary_key_precedence (Demo.target Demo.accepting)
                    (Some {| getPrimaryKey := Some (fun table => table ++ "_id") |})))
              "orders" "customer" (RefModel "customers" (Some "uuid"))
              (Demo.migrate "addColumn") 0 [] 7 _ eq_refl eq_refl).
    discriminate.
Defined.

(** ** Promises *)

Lemma earliest_rejection_none (A : Type) (ps : list (Promise A)) :
  earliest_rejection ps = None <-> forallb (@is_fulfilled A) ps = true.
Proof.
  induction ps as [|p ps IH]; simpl; [tauto|].
  unfold is_fulfilled at 1. destruct (settlement p) as [v|e]; simpl.
  - exact IH.
  - split; [|discriminate].
    destruct (earliest_rejection ps) as [[t' e']|]; [|discriminate].
    now destruct (Nat.leb (settled_at p) t').
Qed.

(** The earliest rejection is the rejection of a member, and no member
    is rejected before it. *)
Lemma earliest_rejection_some (A : Type) (ps : list (Promise A))
    (t : nat) (e : Error) :
  earliest_rejection ps = Some (t, e) ->
  (exists q, In q ps /\ settlement q = Rejected e /\ settled_at q = t) /\
  (forall q e', In q ps -> settlement q = Rejected e' -> t <= settled_at q).
Proof.
  revert t e. induction ps as [|p ps IH]; simpl; intros t e H; [discriminate|].
  destruct (settlement p) as [v|e0] eqn:Ep.
  - destruct (IH _ _ H) as [[q [Hq [Hs Ht]]] Hmin]. split.
    + exists q. auto.
    + intros q' e' [<-|Hin] Hr; [congruence|]. eauto.
  - destruct (earliest_rejection ps) as [[t' e']|] eqn:Er.
    + destruct (IH _ _ eq_refl) as [[q [Hq [Hs Ht]]] Hmin].
      destruct (Nat.leb (settled_at p) t') eqn:El; injection H as <- <-.
      * apply Nat.leb_le in El. split; [exists p; auto|].
        intros q' e1 [<-|Hin] Hr; [lia|]. specialize (Hmin _ _ Hin Hr). lia.
      * apply Nat.leb_gt in El. split; [exists q; auto|].
        intros q' e1 [<-|Hin] Hr; [lia|]. eauto.
    + injection H as <- <-. split; [exists p; auto|].
      intros q' e1 [<-|Hin] Hr; [lia|].
      apply earliest_rejection_none in Er.
      rewrite forallb_forall in Er. specialize (Er _ Hin).
      unfold is_fulfilled in Er. rewrite Hr in Er. discriminate.
Qed.

Lemma latest_le (A : Type) (ps : list (Promise A)) (q : Promise A) :
  In q ps -> settled_at q <= latest ps.
Proof.
  unfold latest. induction ps as [|p ps IH]; simpl; intros H; [contradiction|].
  destruct H as [<-|H]; [lia|]. specialize (IH H). lia.
Qed.

Lemma Promise_all_settlement (A : Type) (ps : list (Promise A)) :
  settlement (Promise_all ps) =
  match earliest_rejection ps with
  | Some (_, e) => Rejected e
  | None => Fulfilled (fulfilled_values ps)
  end.
Proof.
  unfold Promise_all. now destruct (earliest_rejection ps) as [[t e]|].
Qed.

Lemma map_snd_pair (A B : Type) (a : A) (l : list B) : map snd (map (pair a) l) = l.
Proof. induction l as [|x l IH]; simpl; [reflexivity|]. now rewrite IH. Qed.

(** ** The two intercepted calls *)

Section Interception.

Variable Value : Type.
Variable World : Type.
Variable target : QueryInterface Value World.
Variable options : option Options.

Lemma decorated_addColumn (foreignTable foreignKey : string)
    (attribute : Attribute) (origMethod : CallArgs -> Async Value World)
    (now : nat) (w : World) (commandPromise : Promise Value) (w0 : World) :
  method target "addColumn" = Some origMethod ->
  origMethod (AddColumnArgs foreignTable foreignKey attribute) now w =
    (commandPromise, w0) ->
  decorated target options "addColumn"
    (AddColumnArgs foreignTable foreignKey attribute) now w =
  match getPrimaryTableProps attribute (options_getPrimaryKey options) with
  | Some props =>
      if truthy_string (primaryTable props)
      then addColumnTrigger target props foreignTable foreignKey
             commandPromise now w0
      else (commandPromise, w0, [])
  | None => (commandPromise, w0, [])
  end.
Proof.
  intros Hm Hcall. unfold decorated. rewrite Hm, Hcall.
  replace ("addColumn" =? "addColumn") with true by reflexivity.
  replace ("addColumn" =? "createTable") with false by reflexivity.
  destruct (getPrimaryTableProps attribute (options_getPrimaryKey options))
    as [props|]; [|reflexivity].
  now destruct (truthy_string (primaryTable props)).
Qed.

Lemma decorated_createTable (newTable : string)
    (columns : list (string * Attribute))
    (origMethod : CallArgs -> Async Value World)
    (now : nat) (w : World) (commandPromise : Promise Value) (w0 : World) :
  method target "createTable" = Some origMethod ->
  origMethod (CreateTableArgs newTable columns) now w = (commandPromise, w0) ->
  decorated target options "createTable" (CreateTableArgs newTable columns) now w =
  createTableTriggers target options newTable columns commandPromise now w0.
Proof.
  intros Hm Hcall. unfold decorated. rewrite Hm, Hcall.
  replace ("createTable" =? "addColumn") with false by reflexivity.
  replace ("createTable" =? "createTable") with true by reflexivity.
  reflexivity.
Qed.

Lemma issued_at_once (t : nat) (statements : list string) :
  Forall (fun i : nat * string => fst i = t) (map (pair t) statements).
Proof.
  apply Forall_forall. intros i Hin. apply in_map_iff in Hin.
  now destruct Hin as [s [<- _]].
Qed.

(** ** C6 *)

(** C6, amended: on an intercepted [addColumn] or [createTable], when
    the underlying operation is rejected the interceptor issues no
    statement and the caller gets the same rejection; when it is
    fulfilled, every statement of the interceptor is issued at the
    instant the function resumes from awaiting it, which is not before
    it settled, and the caller gets the result of the underlying
    operation if none of these statements is rejected, and the rejection
    of the one rejected first otherwise. *)
Theorem interception_follows_operation
    (command : string) (args : CallArgs)
    (origMethod : CallArgs -> Async Value World)
    (now : nat) (w : World) (commandPromise : Promise Value) (w0 : World) :
  intercepted_call command args ->
  method target command = Some origMethod ->
  origMethod args now w = (commandPromise, w0) ->
  let r := decorated target options command args now w in
  let t1 := resume now commandPromise in
  match settlement commandPromise with
  | Rejected e =>
      issued_of r = [] /\ settlement (promise_of r) = Rejected e /\ world_of r = w0
  | Fulfilled commandResult =>
      settled_at commandPromise <= t1 /\
      Forall (fun i => fst i = t1) (issued_of r) /\
      settlement (promise_of r) =
        outcome_after commandResult (issued_promises target (issued_of r) t1 w0)
  end.
Proof.
  intros Hshape Hm Hcall r t1.
  assert (Ht1 : settled_at commandPromise <= t1) by (unfold t1, resume; lia).
  destruct args as [foreignTable foreignKey attribute|newTable columns|rest];
    simpl in Hshape; [subst command .. | contradiction].
  - unfold r. rewrite (decorated_addColumn _ _ _ _ _ Hm Hcall).
    assert (Hplain :
      match settlement commandPromise with
      | Rejected e =>
          issued_of (commandPromise, w0, []) = [] /\
          settlement (promise_of (commandPromise, w0, @nil (nat * string))) = Rejected e /\
          world_of (commandPromise, w0, @nil (nat * string)) = w0
      | Fulfilled commandResult =>
          settled_at commandPromise <= t1 /\
          Forall (fun i => fst i = t1) (issued_of (commandPromise, w0, [])) /\
          settlement (promise_of (commandPromise, w0, @nil (nat * string))) =
            outcome_after commandResult
              (issued_promises target (issued_of (commandPromise, w0, [])) t1 w0)
      end).
    { destruct (settlement commandPromise) eqn:E; simpl; auto. }
    destruct (getPrimaryTableProps attribute (options_getPrimaryKey options))
      as [props|]; [|exact Hplain].
    destruct (truthy_string (primaryTable props)); [|exact Hplain].
    clear Hplain. unfold addColumnTrigger. fold t1.
    destruct (settlement commandPromise) as [commandResult|e]; [|now simpl].
    destruct (query (sequelize target) _ t1 w0) as [q w1] eqn:Eq.
    split; [exact Ht1|].
    destruct (settlement q) as [v|e] eqn:Es;
      (split; [repeat constructor|]);
      unfold issued_promises, outcome_after; simpl; rewrite Eq; simpl;
      now rewrite Es.
  - unfold r. rewrite (decorated_createTable _ _ _ _ Hm Hcall).
    unfold createTableTriggers. fold t1.
    destruct (settlement commandPromise) as [commandResult|e]; [|now simpl].
    destruct (query_each _ _ t1 w0) as [ps w1] eqn:Eq.
    split; [exact Ht1|].
    assert (Hps : issued_promises target
                    (map (pair t1)
                       (createTableStatements newTable columns
                          (options_getPrimaryKey options))) t1 w0 = ps).
    { unfold issued_promises. now rewrite map_snd_pair, Eq. }
    destruct (settlement (Promise_all ps)) as [vs|e] eqn:Eall;
      rewrite Promise_all_settlement in Eall;
      (split; [apply issued_at_once|]);
      simpl; rewrite Hps; unfold outcome_after;
      destruct (earliest_rejection ps) as [[t e']|]; congruence.
Qed.

End Interception.

(** C6, as stated, fails: the underlying [addColumn] succeeds with [7]
    and the caller is handed the rejection of the trigger statement. *)
Lemma trigger_failure_reaches_caller :
  method (Demo.target Demo.refusing) "addColumn" = Some (Demo.migrate "addColumn") /\
  settlement
    (fst (Demo.migrate "addColumn"
            (AddColumnArgs "orders" "customer_id" (Demo.cascade_to "customers"))
            0 [])) = Fulfilled 7 /\
  settlement
    (promise_of
       (decorated (Demo.target Demo.refusing) None "addColumn"
          (AddColumnArgs "orders" "customer_id" (Demo.cascade_to "customers"))
          0 [])) = Rejected (DatabaseError "Trigger already exists").
Proof. repeat split. Qed.

Lemma interception_follows_operation_witness :
  settlement
    (promise_of
       (decorated (Demo.target Demo.accepting) None "addColumn"
          (AddColumnArgs "orders" "customer_id" (Demo.cascade_to "customers"))
          0 [])) = Fulfilled 7.
Proof.
  exact (proj2 (proj2
           (interception_follows_operation (Demo.target Demo.accepting) None
              "addColumn"
              (AddColumnArgs "orders" "customer_id" (Demo.cascade_to "customers"))
              0 [] eq_refl eq_refl eq_refl))).
Defined.

(** ** C7 *)

Lemma createTableStatements_cons (newTable name : string)
    (attribute : Attribute) (columns : list (string * Attribute))
    (getPrimaryKey : option (string -> string)) :
  createTableStatements newTable ((name, attribute) :: columns) getPrimaryKey =
  match getPrimaryTableProps attribute getPrimaryKey with
  | Some props =>
      createParanoidDeleteTriggerStatement
        (primaryTable props) (primaryKey props) newTable name
      :: createTableStatements newTable columns getPrimaryKey
  | None => createTableStatements newTable columns getPrimaryKey
  end.
Proof.
  unfold createTableStatements. simpl.
  now destruct (getPrimaryTableProps attribute getPrimaryKey).
Qed.

(** One statement for each column that carries the annotation, in the
    order of the columns. *)
Lemma createTableStatements_annotated (t : nat) (newTable : string)
    (columns : list (string * Attribute))
    (getPrimaryKey : option (string -> string)) :
  Forall2
    (fun (column : string * Attribute) (i : nat * string) =>
       exists references,
         snd column = ColumnOptions (Some "PARANOID CASCADE") (Some references) /\
         i = (t, createParanoidDeleteTriggerStatement
                   (referenced_table references)
                   (resolved_key references getPrimaryKey)
                   newTable (fst column)))
    (filter (fun column => carries_annotation (snd column)) columns)
    (map (pair t) (createTableStatements newTable columns getPrimaryKey)).
Proof.
  induction columns as [|[name attribute] columns IH]; [constructor|].
  rewrite createTableStatements_cons. simpl filter.
  destruct (getPrimaryTableProps_cases attribute getPrimaryKey)
    as [[-> [references [E ->]]]|[-> ->]]; [|exact IH].
  simpl. constructor; [|exact IH]. exists references. now split.
Qed.

Lemma query_each_length (Value World : Type) (db : Sequelize Value World)
    (statements : list string) (now : nat) (w : World) :
  List.length (fst (query_each db statements now w)) = List.length statements.
Proof.
  revert w. induction statements as [|s statements IH]; intros w; simpl;
    [reflexivity|].
  destruct (query db s now w) as [p w1]. specialize (IH w1).
  destruct (query_each db statements now w1) as [ps w2]. simpl in *. now rewrite IH.
Qed.

Section TableCreate.

Variable Value : Type.
Variable World : Type.
Variable target : QueryInterface Value World.
Variable options : option Options.

(** C7: on a [createTable] whose underlying operation is fulfilled, the
    interceptor issues one statement for each column that carries the
    annotation and no other, each the trigger on the column's resolved
    parent table and key for the new table and that column; all of them
    are issued at the one instant the function resumes, after the
    underlying operation has settled, none waiting for another; if all
    are fulfilled the call is fulfilled with the underlying result and
    not before the last of them has settled; if one is rejected the call
    is rejected with the rejection that comes first, at the instant it
    comes; and the statements are handed to [sequelize.query] for real:
    their promises are those of these queries, and the database is left
    as these queries leave it, run in the order of the columns from the
    state the migration left it in. *)
Theorem createTable_triggers
    (newTable : string) (columns : list (string * Attribute))
    (origMethod : CallArgs -> Async Value World)
    (now : nat) (w : World) (commandPromise : Promise Value) (w0 : World)
    (commandResult : Value) :
  method target "createTable" = Some origMethod ->
  origMethod (CreateTableArgs newTable columns) now w = (commandPromise, w0) ->
  settlement commandPromise = Fulfilled commandResult ->
  let r := decorated target options "createTable"
             (CreateTableArgs newTable columns) now w in
  let t1 := resume now commandPromise in
  let ps := issued_promises target (issued_of r) t1 w0 in
  Forall2
    (fun (column : string * Attribute) (i : nat * string) =>
       exists references,
         snd column = ColumnOptions (Some "PARANOID CASCADE") (Some references) /\
         i = (t1, createParanoidDeleteTriggerStatement
                    (referenced_table references)
                    (resolved_key references (options_getPrimaryKey options))
                    newTable (fst column)))
    (filter (fun column => carries_annotation (snd column)) columns)
    (issued_of r) /\
  settled_at commandPromise <= t1 /\
  List.length ps = List.length (issued_of r) /\
  (forallb (@is_fulfilled Value) ps = true ->
   settlement (promise_of r) = Fulfilled commandResult /\
   Forall (fun q => settled_at q <= settled_at (promise_of r)) ps) /\
  (forall q e,
     In q ps -> settlement q = Rejected e ->
     exists q' e',
       In q' ps /\ settlement q' = Rejected e' /\
       settled_at q' <= settled_at q /\
       settlement (promise_of r) = Rejected e' /\
       settled_at (promise_of r) = Nat.max t1 (settled_at q')) /\
  world_of r =
    snd (query_each (sequelize target) (map snd (issued_of r)) t1 w0).
Proof.
  intros Hm Hcall Hok r t1 ps.
  assert (Hr : r = createTableTriggers target options newTable columns
                     commandPromise now w0)
    by (unfold r; apply decorated_createTable with (origMethod := origMethod);
        assumption).
  unfold createTableTriggers in Hr. fold t1 in Hr. rewrite Hok in Hr.
  set (statements := createTableStatements newTable columns
                       (options_getPrimaryKey options)) in Hr.
  destruct (query_each (sequelize target) statements t1 w0) as [qs w1] eqn:Eq.
  assert (Hissued : issued_of r = map (pair t1) statements).
  { rewrite Hr. now destruct (settlement (Promise_all qs)). }
  assert (Hps : ps = qs).
  { unfold ps, issued_promises. now rewrite Hissued, map_snd_pair, Eq. }
  assert (Hpromise : promise_of r =
            {| settled_at := resume t1 (Promise_all qs);
               settlement := outcome_after commandResult qs |}).
  { rewrite Hr. unfold outcome_after.
    destruct (settlement (Promise_all qs)) as [vs|e] eqn:Eall;
      rewrite Promise_all_settlement in Eall;
      destruct (earliest_rejection qs) as [[t e']|]; unfold promise_of; simpl;
      congruence. }
  assert (Hworld : world_of r = w1).
  { rewrite Hr. now destruct (settlement (Promise_all qs)). }
  rewrite Hissued, Hps, Hpromise, Hworld, map_snd_pair, Eq.
  clear Hr Hissued Hps Hpromise Hworld.
  repeat split.
  - apply createTableStatements_annotated.
  - unfold t1, resume. lia.
  - rewrite List.length_map. rewrite <- (query_each_length (sequelize target) statements t1 w0).
    now rewrite Eq.
  - simpl. unfold outcome_after.
    apply earliest_rejection_none in H. now rewrite H.
  - simpl. apply Forall_forall. intros q Hq.
    apply earliest_rejection_none in H.
    unfold resume, Promise_all. rewrite H. simpl.
    apply latest_le in Hq. lia.
  - intros q e Hq Hrej.
    destruct (earliest_rejection qs) as [[t e']|] eqn:Er.
    + destruct (earliest_rejection_some _ Er) as [[q' [Hq' [Hs Ht]]] Hmin].
      exists q', e'. repeat split; try assumption.
      * rewrite Ht. eauto.
      * simpl. unfold outcome_after. now rewrite Er.
      * simpl. unfold resume, Promise_all. rewrite Er. simpl. now rewrite Ht.
    + apply earliest_rejection_none in Er. rewrite forallb_forall in Er.
      specialize (Er _ Hq). unfold is_fulfilled in Er. rewrite Hrej in Er.
      discriminate.
Qed.

End TableCreate.

Lemma createTable_triggers_witness :
  issued_of
    (decorated (Demo.target Demo.accepting) None "createTable"
       (CreateTableArgs "orders" Demo.orders_columns) 0 []) =
  [ (2, createParanoidDeleteTriggerStatement "customers" "id" "orders" "customer_id");
    (2, createParanoidDeleteTriggerStatement "warehouses" "id" "orders" "warehouse_id") ] /\
  settlement
    (promise_of
       (decorated (Demo.target Demo.accepting) None "createTable"
          (CreateTableArgs "orders" Demo.orders_columns) 0 [])) = Fulfilled 7 /\
  world_of
    (decorated (Demo.target Demo.accepting) None "createTable"
       (CreateTableArgs "orders" Demo.orders_columns) 0 []) =
  [ "createTable";
    createParanoidDeleteTriggerStatement "customers" "id" "orders" "customer_id";
    createParanoidDeleteTriggerStatement "warehouses" "id" "orders" "warehouse_id" ].
Proof.
  pose proof (createTable_triggers (Demo.target Demo.accepting) None
                "orders" Demo.orders_columns 0 []
                (eq_refl : method (Demo.target Demo.accepting) "createTable" =
                           Some (Demo.migrate "createTable"))
                eq_refl (eq_refl : _ = Fulfilled 7)) as H.
  destruct H as [_ [_ [_ [H [_ Hw]]]]]. split; [reflexivity|].
  split; [apply H; reflexivity|exact Hw].
Defined.

(** ** C10 *)

Lemma createTableStatements_app (newTable : string)
    (before after : list (string * Attribute))
    (getPrimaryKey : option (string -> string)) :
  createTableStatements newTable (before ++ after) getPrimaryKey =
  (createTableStatements newTable before getPrimaryKey ++
   createTableStatements newTable after getPrimaryKey)%list.
Proof.
  induction before as [|[name attribute] before IH]; [reflexivity|].
  simpl app. rewrite !createTableStatements_cons, IH.
  now destruct (getPrimaryTableProps attribute getPrimaryKey).
Qed.

Lemma createTableStatements_no_references (newTable : string)
    (columns : list (string * Attribute))
    (getPrimaryKey : option (string -> string)) :
  Forall (fun column : string * Attribute =>
            exists onDelete, snd column = ColumnOptions onDelete None) columns ->
  createTableStatements newTable columns getPrimaryKey = [].
Proof.
  induction 1 as [|[name attribute] columns [onDelete E] _ IH]; [reflexivity|].
  rewrite createTableStatements_cons, IH. simpl in E. subst attribute.
  destruct onDelete as [onDelete|]; [|reflexivity].
  simpl. now destruct (onDelete =? "PARANOID CASCADE").
Qed.

Section NoReferences.

Variable Value : Type.
Variable World : Type.
Variable target : QueryInterface Value World.
Variable options : option Options.

(** C10: a column specification with [onDelete: 'PARANOID CASCADE'] and
    no [references] resolves to no parent table; an [addColumn] with it
    is the underlying call and nothing else; in a [createTable] it adds
    no statement to those of the other columns, and when no column has a
    [references] the call issues no statement, leaves the database as
    the underlying call does and settles as the underlying promise
    does. *)
Theorem cascade_without_references_ignored :
  (forall getPrimaryKey,
     getPrimaryTableProps (ColumnOptions (Some "PARANOID CASCADE") None)
       getPrimaryKey = None) /\
  (forall (foreignTable foreignKey : string)
          (origMethod : CallArgs -> Async Value World) (now : nat) (w : World),
     method target "addColumn" = Some origMethod ->
     decorated target options "addColumn"
       (AddColumnArgs foreignTable foreignKey
          (ColumnOptions (Some "PARANOID CASCADE") None)) now w =
     direct origMethod
       (AddColumnArgs foreignTable foreignKey
          (ColumnOptions (Some "PARANOID CASCADE") None)) now w) /\
  (forall (newTable name : string) (before after : list (string * Attribute))
          getPrimaryKey,
     createTableStatements newTable
       (before ++ (name, ColumnOptions (Some "PARANOID CASCADE") None) :: after)
       getPrimaryKey =
     createTableStatements newTable (before ++ after) getPrimaryKey) /\
  (forall (newTable : string) (columns : list (string * Attribute))
          (origMethod : CallArgs -> Async Value World) (now : nat) (w : World),
     Forall (fun column : string * Attribute =>
               exists onDelete, snd column = ColumnOptions onDelete None) columns ->
     method target "createTable" = Some origMethod ->
     let r := decorated target options "createTable"
                (CreateTableArgs newTable columns) now w in
     let underlying := origMethod (CreateTableArgs newTable columns) now w in
     issued_of r = [] /\
     world_of r = snd underlying /\
     settlement (promise_of r) = settlement (fst underlying) /\
     settled_at (promise_of r) = resume now (fst underlying)).
Proof.
  split; [reflexivity|]. split; [|split].
  - intros foreignTable foreignKey origMethod now w Hm.
    unfold direct.
    destruct (origMethod _ now w) as [commandPromise w0] eqn:Hcall.
    erewrite decorated_addColumn; [|exact Hm|exact Hcall]. reflexivity.
  - intros newTable name before after getPrimaryKey.
    rewrite !createTableStatements_app, createTableStatements_cons.
    reflexivity.
  - intros newTable columns origMethod now w Hnone Hm r underlying.
    unfold r, underlying.
    destruct (origMethod _ now w) as [commandPromise w0] eqn:Hcall.
    erewrite decorated_createTable; [|exact Hm|exact Hcall].
    unfold createTableTriggers.
    rewrite (createTableStatements_no_references _ _ Hnone).
    destruct (settlement commandPromise) as [v|e] eqn:E; simpl;
      unfold promise_of, world_of, issued_of; simpl; rewrite ?E;
      repeat split; unfold resume; simpl; try (lia || congruence);
      apply Nat.max_0_r.
Qed.

End NoReferences.

Lemma cascade_without_references_ignored_witness :
  decorated (Demo.target Demo.refusing) None "addColumn"
    (AddColumnArgs "orders" "customer_id"
       (ColumnOptions (Some "PARANOID CASCADE") None)) 0 [] =
  ({| settled_at := 2; settlement := Fulfilled 7 |}, ["addColumn"], []).
Proof.
  exact (proj1 (proj2 (cascade_without_references_ignored
                         (Demo.target Demo.refusing) None))
           "orders" "customer_id" (Demo.migrate "addColumn") 0 [] eq_refl).
Defined.

(** ** The decision engine *)

Section EngineFacts.

Variable World : Type.
Variable Rows : Type.
Variable Scalar : Type.
Variable query : string -> World -> Settlement Rows * World.
Variable buildExistTriggerStatement : string -> string -> string.
Variable buildCreateTriggerStatement : string -> string -> string -> string -> string.
Variable unwrapSelectOneValue : Rows -> Scalar.
Variable getSoftDeleteTableNames :
  string -> World -> Settlement (list string) * World.
Variable getForeignKeysTableRelations :
  list string -> string -> World -> Settlement (list ForeignKeyFields) * World.
Variable truthy : Scalar -> bool.

Local Abbreviation next :=
  (getNextRelation query buildExistTriggerStatement unwrapSelectOneValue truthy).
Local Abbreviation ask :=
  (askForNextRelation query buildExistTriggerStatement unwrapSelectOneValue truthy).
Local Abbreviation is_checked :=
  (checked query buildExistTriggerStatement unwrapSelectOneValue truthy).
Local Abbreviation are_covered :=
  (covered query buildExistTriggerStatement unwrapSelectOneValue truthy).
Local Abbreviation exist := (exist_statement buildExistTriggerStatement).
Local Abbreviation handle :=
  (on_line query buildExistTriggerStatement buildCreateTriggerStatement
     unwrapSelectOneValue getSoftDeleteTableNames getForeignKeysTableRelations
     truthy).

(** [getNextRelation] drops a run of covered relations from the front of
    the queue, checking each, and stops at the end of the queue, at the
    first relation whose check finds no trigger, or at the first check
    that is rejected. *)
Lemma getNextRelation_cases (queue : list ForeignKeyFields) (w : World) :
  exists (skipped : list ForeignKeyFields) (wmid : World),
    match next queue w with
    | (result, queue', w', outputs) =>
        queue = (skipped ++ queue')%list /\
        are_covered skipped w wmid /\
        match queue' with
        | [] =>
            result = Fulfilled None /\ w' = wmid /\
            outputs = map Queried (map exist skipped)
        | relation :: _ =>
            outputs = map Queried (map exist (skipped ++ [relation])%list) /\
            ((result = Fulfilled (Some relation) /\
              is_checked relation false wmid w') \/
             (exists e, result = Rejected e /\
                        query (exist relation) wmid = (Rejected e, w')))
        end
    end.
Proof.
  revert w. induction queue as [|relation rest IH]; intros w.
  - exists [], w. simpl. repeat split. constructor.
  - simpl. destruct (query (exist relation) w) as [[rows|e] w1] eqn:Eq.
    + destruct (truthy (unwrapSelectOneValue rows)) eqn:Et.
      * destruct (IH w1) as [skipped [wmid H]].
        destruct (next rest w1) as [[[result queue'] w'] outputs].
        destruct H as [Hq [Hc Hrest]].
        exists (relation :: skipped), wmid. split; [simpl; now rewrite Hq|].
        split; [econstructor; [exists rows; split; eassumption|exact Hc]|].
        destruct queue' as [|r queue'].
        -- destruct Hrest as [-> [-> ->]]. auto.
        -- destruct Hrest as [-> Hrest]. split; [reflexivity|exact Hrest].
      * exists [], w. split; [reflexivity|]. split; [constructor|].
        split; [reflexivity|]. left. split; [reflexivity|].
        exists rows. auto.
    + exists [], w. split; [reflexivity|]. split; [constructor|].
      split; [reflexivity|]. right. exists e. auto.
Qed.

(** What [askForNextRelation] does, whatever the database answers. *)
Lemma askForNextRelation_cases (s : Session) (w : World) :
  exists (skipped : list ForeignKeyFields) (wmid : World),
    match ask s w with
    | (unhandled, s', w', outputs) =>
        tableRelations s = (skipped ++ tableRelations s')%list /\
        are_covered skipped w wmid /\
        scanned s' = scanned s /\
        match tableRelations s' with
        | [] =>
            unhandled = None /\ w' = wmid /\ closed s' = true /\
            outputs = (map Queried (map exist skipped) ++ close_outputs)%list
        | relation :: _ =>
            closed s' = closed s /\
            ((unhandled = None /\
              is_checked relation false wmid w' /\
              prompt s' = relation_prompt relation /\
              outputs =
                (map Queried (map exist (skipped ++ [relation])%list) ++
                 [Prompted (relation_prompt relation)])%list) \/
             (exists e,
                unhandled = Some e /\
                query (exist relation) wmid = (Rejected e, w') /\
                outputs = map Queried (map exist (skipped ++ [relation])%list)))
        end
    end.
Proof.
  destruct (getNextRelation_cases (tableRelations s) w) as [skipped [wmid H]].
  exists skipped, wmid. unfold askForNextRelation.
  destruct (next (tableRelations s) w) as [[[result queue'] w'] outputs].
  destruct H as [Hq [Hc Hrest]].
  destruct queue' as [|relation queue'].
  - destruct Hrest as [-> [-> ->]]. simpl. auto 10.
  - destruct Hrest as [-> [[-> Hchk]|[e [-> Hrej]]]]; simpl.
    + repeat split; try assumption. left. auto.
    + repeat split; try assumption. right. exists e. auto.
Qed.

(** ** C8 *)

(** C8: as long as the database answers the existence checks, asking for
    the next relation checks the relations from the head of the queue
    on, in order, before anything is shown; it removes the leading ones
    whose trigger is found without showing them, and then either the
    relation now at the head has just been checked and found uncovered
    and is the one the prompt shows, or the queue is empty and the
    session is closed. *)
Theorem covered_relations_are_skipped (s : Session) (w : World) :
  (forall relation w0,
     In relation (tableRelations s) ->
     exists rows w1, query (exist relation) w0 = (Fulfilled rows, w1)) ->
  exists (skipped : list ForeignKeyFields) (wmid : World),
    match ask s w with
    | (unhandled, s', w', outputs) =>
        unhandled = None /\
        tableRelations s = (skipped ++ tableRelations s')%list /\
        are_covered skipped w wmid /\
        match tableRelations s' with
        | [] =>
            w' = wmid /\ closed s' = true /\
            outputs = (map Queried (map exist skipped) ++ close_outputs)%list
        | relation :: _ =>
            is_checked relation false wmid w' /\
            closed s' = closed s /\
            prompt s' = relation_prompt relation /\
            outputs =
              (map Queried (map exist (skipped ++ [relation])%list) ++
               [Prompted (relation_prompt relation)])%list
        end
    end.
Proof.
  intros Hlive.
  destruct (askForNextRelation_cases s w) as [skipped [wmid H]].
  exists skipped, wmid.
  destruct (ask s w) as [[[unhandled s'] w'] outputs].
  destruct H as [Hq [Hc [_ Hrest]]].
  destruct (tableRelations s') as [|relation queue'].
  - destruct Hrest as [-> [-> [Hcl ->]]]. auto 10.
  - destruct Hrest as [Hcl [[-> [Hchk [Hp ->]]]|[e [_ [Hrej _]]]]].
    + auto 10.
    + destruct (Hlive relation wmid) as [rows [w1 E]]; [|congruence].
      rewrite Hq. apply in_or_app. right. now left.
Qed.

(** ** C9 *)

(** C9: on [c] after the scan, with a relation at the head of the queue,
    the engine runs the create-trigger statement of that relation and
    reports its success or logs its error; in both cases it then removes
    the head and asks for the next relation of the rest of the queue, so
    that what is left pending is an end of the rest, and the session is
    closed by this step only when nothing is left pending.  What it
    asks amounts to this: from the database as the create statement left
    it, the relations at the front of the rest whose existence check
    finds a trigger are removed, each after its check, without being
    shown; then either nothing is left and the session closes, or the
    relation now at the head has been checked and found uncovered and is
    the one the prompt shows.  The failure of the create statement is
    caught: a rejection goes unhandled in this step only when an
    existence check is rejected. *)
Theorem cascade_then_advance (options : ScanOptions) (s : Session) (w : World)
    (relation : ForeignKeyFields) (rest : list ForeignKeyFields) :
  scanned s = true ->
  tableRelations s = relation :: rest ->
  let statement :=
    buildCreateTriggerStatement
      (referencedTableName relation) (referencedColumnName relation)
      (tableName relation) (columnName relation) in
  let report :=
    match fst (query statement w) with
    | Fulfilled _ => LogInfo (created_message relation)
    | Rejected e => LogErrorObject e
    end in
  handle options "c" s w =
    prepend [Queried statement; report]
      (ask (with_queue s rest) (snd (query statement w))) /\
  match handle options "c" s w with
  | (unhandled, s', w', outputs) =>
      (exists skipped, rest = (skipped ++ tableRelations s')%list) /\
      (closed s' = closed s \/ tableRelations s' = [])
  end /\
  (exists (skipped : list ForeignKeyFields) (wmid : World),
     match handle options "c" s w with
     | (unhandled, s', w', outputs) =>
         rest = (skipped ++ tableRelations s')%list /\
         are_covered skipped (snd (query statement w)) wmid /\
         scanned s' = true /\
         match tableRelations s' with
         | [] =>
             unhandled = None /\ w' = wmid /\ closed s' = true /\
             outputs =
               ([Queried statement; report] ++
                map Queried (map exist skipped) ++ close_outputs)%list
         | next_relation :: _ =>
             closed s' = closed s /\
             ((unhandled = None /\
               is_checked next_relation false wmid w' /\
               prompt s' = relation_prompt next_relation /\
               outputs =
                 ([Queried statement; report] ++
                  map Queried (map exist (skipped ++ [next_relation])%list) ++
                  [Prompted (relation_prompt next_relation)])%list) \/
              (exists e,
                 unhandled = Some e /\
                 query (exist next_relation) wmid = (Rejected e, w') /\
                 outputs =
                   ([Queried statement; report] ++
                    map Queried (map exist (skipped ++ [next_relation])%list))%list))
         end
     end) /\
  ((forall pending w0,
      In pending rest ->
      exists rows w1, query (exist pending) w0 = (Fulfilled rows, w1)) ->
   match handle options "c" s w with
   | (unhandled, s', w', outputs) =>
       unhandled = None /\
       match tableRelations s' with
       | [] => closed s' = true
       | next_relation :: _ =>
           closed s' = closed s /\
           prompt s' = relation_prompt next_relation /\
           exists wmid, is_checked next_relation false wmid w'
       end
   end).
Proof.
  intros Hscanned Hqueue statement report.
  assert (E : handle options "c" s w =
              prepend [Queried statement; report]
                (ask (with_queue s rest) (snd (query statement w)))).
  { unfold on_line.
    replace ("c" =? "y") with false by reflexivity.
    replace ("c" =? "c") with true by reflexivity.
    rewrite Hscanned. cbv beta iota. unfold negb.
    unfold createTrigger, shift_and_ask. rewrite Hqueue. fold statement.
    unfold report. simpl tl.
    now destruct (query statement w) as [[rows|e] w1]. }
  split; [exact E|]. rewrite E.
  destruct (askForNextRelation_cases (with_queue s rest) (snd (query statement w)))
    as [skipped [wmid H]].
  destruct (ask (with_queue s rest) (snd (query statement w)))
    as [[[unhandled s'] w'] outputs].
  simpl prepend. cbv iota beta.
  destruct H as [Hq [Hc [Hs Hrest]]]. simpl in Hq, Hs.
  split; [|split].
  - split; [now exists skipped|].
    destruct (tableRelations s') as [|r queue'].
    + now right.
    + left. now destruct Hrest as [-> _].
  - exists skipped, wmid. split; [exact Hq|]. split; [exact Hc|].
    split; [congruence|].
    destruct (tableRelations s') as [|r queue'].
    + destruct Hrest as [-> [-> [Hcl ->]]]. auto.
    + destruct Hrest as [Hcl [[-> [Hchk [Hp ->]]]|[e [-> [Hrej ->]]]]].
      * split; [exact Hcl|]. left. auto.
      * split; [exact Hcl|]. right. exists e. auto.
  - intros Hlive.
    destruct (tableRelations s') as [|r queue'].
    + now destruct Hrest as [-> [_ [Hcl _]]].
    + destruct Hrest as [Hcl [[-> [Hchk [Hp _]]]|[e [_ [Hrej _]]]]].
      * split; [reflexivity|]. split; [exact Hcl|]. split; [exact Hp|].
        now exists wmid.
      * destruct (Hlive r wmid) as [rows [w1 Er]]; [|congruence].
        rewrite Hq. apply in_or_app. right. now left.
Qed.

End EngineFacts.

Lemma covered_relations_are_skipped_witness :
  exists skipped,
    tableRelations DemoEngine.pending =
    (skipped ++ [DemoEngine.orders_warehouses])%list.
Proof.
  destruct (covered_relations_are_skipped
              DemoEngine.query DemoEngine.buildExistTriggerStatement
              DemoEngine.unwrapSelectOneValue DemoEngine.truthy
              DemoEngine.pending ["on_customers_delete_update_orders"])
    as [skipped [wmid H]].
  - intros relation w0 [<-|[<-|[]]]; eexists; eexists; reflexivity.
  - exists skipped. exact (proj1 (proj2 H)).
Defined.

Lemma cascade_then_advance_witness :
  on_line DemoEngine.query DemoEngine.buildExistTriggerStatement
    createParanoidDeleteTriggerStatement DemoEngine.unwrapSelectOneValue
    DemoEngine.getSoftDeleteTableNames DemoEngine.getForeignKeysTableRelations
    DemoEngine.truthy DemoEngine.scan "c" DemoEngine.pending [] =
  (None,
   {| tableRelations := [DemoEngine.orders_warehouses]; scanned := true;
      prompt := relation_prompt DemoEngine.orders_warehouses; closed := false |},
   [],
   [ Queried (createParanoidDeleteTriggerStatement "customers" "id" "orders" "customer_id");
     LogErrorObject (DatabaseError "Trigger creation failed");
     Queried "SELECT EXISTS on_warehouses_delete_update_orders";
     Prompted (relation_prompt DemoEngine.orders_warehouses) ]).
Proof.
  exact (proj1 (cascade_then_advance
                  DemoEngine.query DemoEngine.buildExistTriggerStatement
                  createParanoidDeleteTriggerStatement
                  DemoEngine.unwrapSelectOneValue
                  DemoEngine.getSoftDeleteTableNames
                  DemoEngine.getForeignKeysTableRelations
                  DemoEngine.truthy DemoEngine.scan DemoEngine.pending []
                  eq_refl eq_refl)).
Defined.

(* ================================================================== *)
(** * Further properties of the decision engine *)

Lemma prepend_nil (World : Type) (step : Step World) : prepend [] step = step.
Proof. now destruct step as [[[u s] w] later]. Qed.

Section EngineSteps.

Variable World : Type.
Variable Rows : Type.
Variable Scalar : Type.
Variable query : string -> World -> Settlement Rows * World.
Variable buildExistTriggerStatement : string -> string -> string.
Variable buildCreateTriggerStatement : string -> string -> string -> string -> string.
Variable unwrapSelectOneValue : Rows -> Scalar.
Variable getSoftDeleteTableNames :
  string -> World -> Settlement (list string) * World.
Variable getForeignKeysTableRelations :
  list string -> string -> World -> Settlement (list ForeignKeyFields) * World.
Variable truthy : Scalar -> bool.

Local Abbreviation next :=
  (getNextRelation query buildExistTriggerStatement unwrapSelectOneValue truthy).
Local Abbreviation ask :=
  (askForNextRelation query buildExistTriggerStatement unwrapSelectOneValue truthy).
Local Abbreviation is_checked :=
  (checked query buildExistTriggerStatement unwrapSelectOneValue truthy).
Local Abbreviation are_covered :=
  (covered query buildExistTriggerStatement unwrapSelectOneValue truthy).
Local Abbreviation exist := (exist_statement buildExistTriggerStatement).
Local Abbreviation scan :=
  (getTableRelations getSoftDeleteTableNames getForeignKeysTableRelations).
Local Abbreviation handle :=
  (on_line query buildExistTriggerStatement buildCreateTriggerStatement
     unwrapSelectOneValue getSoftDeleteTableNames getForeignKeysTableRelations
     truthy).
Local Abbreviation session :=
  (run query buildExistTriggerStatement buildCreateTriggerStatement
     unwrapSelectOneValue getSoftDeleteTableNames getForeignKeysTableRelations
     truthy).

Lemma idle_step (options : ScanOptions) (line : string)
    (s : Session) (w : World) :
  acts (scanned s) line = false ->
  exists outputs,
    handle options line s w =
      (None, s, w, (outputs ++ [Prompted (prompt s)])%list) /\
    existsb is_query outputs = false.
Proof.
  unfold acts, on_line, invalid_option, not_implemented. intros H.
  destruct (scanned s) eqn:Es.
  - apply orb_false_iff in H. destruct H as [H Hq].
    apply orb_false_iff in H. destruct H as [Hc Hs]. rewrite Hc, Hs, Hq.
    destruct (line =? "y").
    { now exists [LogError "Invalid option."]. }
    destruct ((line =? "na") || (line =? "sn") || (line =? "st")).
    { now exists [LogWarn "Not implemented yet."]. }
    destruct (line =? "?"); [|destruct (line =? "n")].
    + now eexists.
    + now exists [LogError "Invalid option."].
    + now exists [LogError "Invalid option."].
  - apply orb_false_iff in H. destruct H as [Hy Hn]. rewrite Hy, Hn. simpl.
    destruct (line =? "c").
    { now exists [LogError "Invalid option."]. }
    destruct ((line =? "na") || (line =? "sn") || (line =? "st")).
    { now exists [LogError "Invalid option."]. }
    destruct (line =? "s"); [|destruct (line =? "?"); [|destruct (line =? "q")]];
      now exists [LogError "Invalid option."].
Qed.

(** [askForNextRelation] either closes the session, the queue being
    empty, and exits with status [0], or leaves it as open as it was and
    does not exit. *)
Lemma ask_exit (s : Session) (w : World) :
  match ask s w with
  | (unhandled, s', w', outputs) =>
      (tableRelations s' = [] /\ unhandled = None /\ closed s' = true /\
       In (Exited 0) outputs /\
       forall status, In (Exited status) outputs -> status = 0) \/
      (closed s' = closed s /\ forall status, ~ In (Exited status) outputs)
  end.
Proof.
  destruct (askForNextRelation_cases query buildExistTriggerStatement
              unwrapSelectOneValue truthy s w) as [skipped [wmid H]].
  destruct (ask s w) as [[[unhandled s'] w'] outputs].
  destruct H as [_ [_ [_ H]]].
  assert (Hq : forall l status, ~ In (Exited status) (map Queried l)).
  { intros l status Hin. apply in_map_iff in Hin. now destruct Hin as [x [E _]]. }
  destruct (tableRelations s') as [|relation rest].
  - left. destruct H as [-> [-> [Hc ->]]]. repeat split; try assumption.
    + apply in_or_app. right. right. now left.
    + intros status Hin. apply in_app_or in Hin. destruct Hin as [Hin|Hin].
      * now apply Hq in Hin.
      * destruct Hin as [E|[E|[]]]; congruence.
  - right. destruct H as [Hc [[-> [_ [_ ->]]]|[e [-> [_ ->]]]]];
      (split; [exact Hc|]); intros status Hin.
    + apply in_app_or in Hin. destruct Hin as [Hin|Hin].
      * now apply Hq in Hin.
      * destruct Hin as [E|[]]. discriminate.
    + now apply Hq in Hin.
Qed.

Lemma createTrigger_outputs (s : Session) (w : World) (status : nat) :
  ~ In (Exited status) (fst (createTrigger query buildCreateTriggerStatement s w)).
Proof.
  unfold createTrigger. destruct (tableRelations s) as [|relation rest].
  - intros [E|[]]. discriminate.
  - destruct (query _ w) as [[rows|e] w1]; intros [E|[E|[]]]; discriminate.
Qed.

(** What a step that ends in [askForNextRelation] does about closing,
    [before] being what it printed first. *)
Lemma ask_closing (before : list Output) (s0 : Session) (w0 : World)
    (line : string) (was_scanned : bool) :
  (forall status, ~ In (Exited status) before) ->
  line = "y" \/ line = "c" \/ line = "s" ->
  match prepend before (ask s0 w0) with
  | (unhandled, s', w', outputs) =>
      (forall status,
         In (Exited status) outputs ->
         status = 0 /\ closed s' = true /\ unhandled = None) /\
      (closed s0 = false -> closed s' = true ->
       unhandled = None /\ In (Exited 0) outputs /\
       ((line = "n" /\ was_scanned = false) \/
        (line = "q" /\ was_scanned = true) \/
        ((line = "y" \/ line = "c" \/ line = "s") /\ tableRelations s' = [])))
  end.
Proof.
  intros Hb Hl. pose proof (ask_exit s0 w0) as H.
  destruct (ask s0 w0) as [[[unhandled s'] w'] outputs]. simpl.
  destruct H as [[Hq [Hu [Hc [Hin H0]]]]|[Hc Hno]].
  - split.
    + intros status Hs. apply in_app_or in Hs. destruct Hs as [Hs|Hs].
      * now apply Hb in Hs.
      * split; [now apply H0|]. auto.
    + intros _ _. split; [exact Hu|].
      split; [apply in_or_app; now right|]. right. right. auto.
  - split.
    + intros status Hs. apply in_app_or in Hs. destruct Hs as [Hs|Hs].
      * now apply Hb in Hs.
      * now apply Hno in Hs.
    + intros H0 H1. congruence.
Qed.

(** X2: a step prints the exit of the [close] listener only with status
    [0], only when it ends without an unhandled rejection, and only
    together with closing the session; an open session is closed only
    by [n] before the scan, by [q] after it, or by a [y], [c] or [s]
    step that has left nothing pending, and such a step ends without an
    unhandled rejection and prints that exit. *)
Theorem session_closes_only (options : ScanOptions) (line : string)
    (s : Session) (w : World) :
  match handle options line s w with
  | (unhandled, s', w', outputs) =>
      (forall status,
         In (Exited status) outputs ->
         status = 0 /\ closed s' = true /\ unhandled = None) /\
      (closed s = false -> closed s' = true ->
       unhandled = None /\ In (Exited 0) outputs /\
       ((line = "n" /\ scanned s = false) \/
        (line = "q" /\ scanned s = true) \/
        ((line = "y" \/ line = "c" \/ line = "s") /\ tableRelations s' = [])))
  end.
Proof.
  assert (Hidle : forall outputs,
            (forall status, ~ In (Exited status) outputs) ->
            (forall status,
               In (Exited status) outputs ->
               status = 0 /\ closed s = true /\ @None Error = None) /\
            (closed s = false -> closed s = true ->
             @None Error = None /\ In (Exited 0) outputs /\
             ((line = "n" /\ scanned s = false) \/
              (line = "q" /\ scanned s = true) \/
              ((line = "y" \/ line = "c" \/ line = "s") /\
               tableRelations s = [])))).
  { intros outputs Hno. split; [intros status Hin; now apply Hno in Hin|congruence]. }
  assert (Hclose : forall key flag, line = key -> scanned s = flag ->
            (key = "n" /\ flag = false) \/ (key = "q" /\ flag = true) ->
            (forall status,
               In (Exited status) close_outputs ->
               status = 0 /\ true = true /\ @None Error = None) /\
            (closed s = false -> true = true ->
             @None Error = None /\ In (Exited 0) close_outputs /\
             ((line = "n" /\ scanned s = false) \/
              (line = "q" /\ scanned s = true) \/
              ((line = "y" \/ line = "c" \/ line = "s") /\
               tableRelations s = [])))).
  { intros key flag -> Hf Hk. split.
    - intros status [E|[E|[]]]; [discriminate|]. injection E as <-. auto.
    - intros _ _. split; [reflexivity|]. split; [right; now left|].
      destruct Hk as [[-> ->]|[-> ->]]; auto. }
  unfold on_line.
  destruct (line =? "y") eqn:Ey.
  { apply String.eqb_eq in Ey. destruct (scanned s) eqn:Es.
    - apply Hidle. intros status [E|[E|[]]]; discriminate.
    - destruct (scan options w) as [[relations|e] w1].
      + pose proof (@ask_closing [] (with_queue
                        {| tableRelations := tableRelations s; scanned := true;
                           prompt := prompt s; closed := closed s |} relations)
                      w1 line false) as H.
        rewrite prepend_nil in H. apply H; [intros status []|auto].
      + simpl. split; [intros status []|congruence]. }
  destruct (line =? "c") eqn:Ec.
  { apply String.eqb_eq in Ec. destruct (scanned s) eqn:Es; unfold negb.
    - pose proof (createTrigger_outputs s w) as Hno.
      destruct (createTrigger query buildCreateTriggerStatement s w) as [before w1].
      apply (@ask_closing before (with_queue s (tl (tableRelations s)))
               w1 line true); [exact Hno|auto].
    - apply Hidle. intros status [E|[E|[]]]; discriminate. }
  destruct ((line =? "na") || (line =? "sn") || (line =? "st")).
  { apply Hidle. unfold not_implemented.
    intros status [E|[E|[]]]; [destruct (scanned s)|]; discriminate. }
  destruct (line =? "s") eqn:Esk.
  { apply String.eqb_eq in Esk. destruct (scanned s) eqn:Es; unfold negb.
    - pose proof (@ask_closing [] (with_queue s (tl (tableRelations s)))
                    w line true) as H.
      rewrite prepend_nil in H. apply H; [intros status []|auto].
    - apply Hidle. intros status [E|[E|[]]]; discriminate. }
  destruct (line =? "?").
  { apply Hidle. intros status Hin. destruct (scanned s); simpl in Hin;
      repeat (destruct Hin as [Hin|Hin]; [discriminate|]); exact Hin. }
  destruct (line =? "n") eqn:En.
  { apply String.eqb_eq in En. destruct (scanned s) eqn:Es.
    - apply Hidle. intros status [E|[E|[]]]; discriminate.
    - apply (Hclose "n" false); auto. }
  destruct (line =? "q") eqn:Eq.
  { apply String.eqb_eq in Eq. destruct (scanned s) eqn:Es; unfold negb.
    - apply (Hclose "q" true); auto.
    - apply Hidle. intros status [E|[E|[]]]; discriminate. }
  apply Hidle. intros status [E|[E|[]]]; discriminate.
Qed.

(** The six things the handler of a line can do. *)
Lemma on_line_cases (options : ScanOptions) (line : string)
    (s : Session) (w : World) :
  (acts (scanned s) line = false /\
   exists outputs,
     handle options line s w =
       (None, s, w, (outputs ++ [Prompted (prompt s)])%list)) \/
  (line = "y" /\ scanned s = false /\
   handle options line s w =
     match scan options w with
     | (Rejected e, w1) =>
         (Some e,
          {| tableRelations := tableRelations s; scanned := true;
             prompt := prompt s; closed := closed s |}, w1, [])
     | (Fulfilled relations, w1) =>
         ask {| tableRelations := relations; scanned := true;
                prompt := prompt s; closed := closed s |} w1
     end) \/
  (line = "c" /\ scanned s = true /\
   handle options line s w =
     prepend (fst (createTrigger query buildCreateTriggerStatement s w))
       (ask (with_queue s (tl (tableRelations s)))
            (snd (createTrigger query buildCreateTriggerStatement s w)))) \/
  (line = "s" /\ scanned s = true /\
   handle options line s w = ask (with_queue s (tl (tableRelations s))) w) \/
  ((line = "n" /\ scanned s = false \/ line = "q" /\ scanned s = true) /\
   handle options line s w = close_session s w).
Proof.
  destruct (acts (scanned s) line) eqn:Ha.
  - right. unfold acts in Ha. destruct (scanned s) eqn:Es.
    + apply orb_true_iff in Ha. destruct Ha as [Ha|Ha];
        [apply orb_true_iff in Ha; destruct Ha as [Ha|Ha]|];
        apply String.eqb_eq in Ha; subst line; unfold on_line; rewrite Es; simpl.
      * right. left. repeat split;
          try now destruct (createTrigger query buildCreateTriggerStatement s w).
      * right. right. left. auto.
      * right. right. right. split; [right|]; auto.
    + apply orb_true_iff in Ha. destruct Ha as [Ha|Ha];
        apply String.eqb_eq in Ha; subst line; unfold on_line; rewrite Es; simpl.
      * left. repeat split; unfold with_queue; simpl;
          try now destruct (scan options w) as [[relations|e] w1].
      * right. right. right. split; [left|]; auto.
  - left. split; [reflexivity|].
    destruct (idle_step options line s w Ha) as [outputs [E _]].
    now exists outputs.
Qed.

(** X1: A key that is not acted upon in the current state changes neither
    the session nor the database, hands no statement to the database,
    and ends by showing the current prompt again. *)
Theorem idle_keys_change_nothing (options : ScanOptions) (line : string)
    (s : Session) (w : World) :
  acts (scanned s) line = false ->
  exists outputs,
    handle options line s w =
      (None, s, w, (outputs ++ [Prompted (prompt s)])%list) /\
    existsb is_query outputs = false.
Proof. apply idle_step. Qed.

(** What [askForNextRelation] does to the queue and to the prompt. *)
Lemma ask_queue (s : Session) (w : World) :
  match ask s w with
  | (unhandled, s', w', outputs) =>
      scanned s' = scanned s /\
      (exists skipped, tableRelations s = (skipped ++ tableRelations s')%list) /\
      (unhandled = None -> presenting s')
  end.
Proof.
  destruct (askForNextRelation_cases query buildExistTriggerStatement
              unwrapSelectOneValue truthy s w) as [skipped [wmid H]].
  destruct (ask s w) as [[[unhandled s'] w'] outputs].
  destruct H as [Hq [_ [Hs H]]]. split; [exact Hs|]. split; [now exists skipped|].
  unfold presenting. destruct (tableRelations s') as [|relation rest].
  - now destruct H as [_ [_ [Hc _]]].
  - destruct H as [_ [[_ [_ [Hp _]]]|[e [-> _]]]]; [auto|discriminate].
Qed.

Lemma on_line_queue (options : ScanOptions) (line : string)
    (s : Session) (w : World) :
  scanned s = true ->
  match handle options line s w with
  | (unhandled, s', w', outputs) =>
      scanned s' = true /\
      exists dropped,
        tableRelations s = (dropped ++ tableRelations s')%list /\
        (line = "c" \/ line = "s" -> tableRelations s <> [] -> dropped <> [])
  end.
Proof.
  intros Hs.
  assert (Hask : forall before w0,
            match prepend before (ask (with_queue s (tl (tableRelations s))) w0) with
            | (unhandled, s', w', outputs) =>
                scanned s' = true /\
                exists dropped,
                  tableRelations s = (dropped ++ tableRelations s')%list /\
                  (line = "c" \/ line = "s" -> tableRelations s <> [] -> dropped <> [])
            end).
  { intros before w0.
    pose proof (ask_queue (with_queue s (tl (tableRelations s))) w0) as H.
    destruct (ask _ w0) as [[[unhandled s'] w'] outputs]. simpl in *.
    destruct H as [H1 [[skipped Hq] _]]. split; [congruence|].
    destruct (tableRelations s) as [|head rest].
    - exists skipped. split; [exact Hq|]. intros _ Hne. now elim Hne.
    - exists (head :: skipped). simpl in Hq. rewrite Hq. split; [reflexivity|].
      discriminate. }
  destruct (on_line_cases options line s w)
    as [[Ha [outputs E]]|[[_ [Hn _]]|[[_ [_ E]]|[[_ [_ E]]|[Hl E]]]]]; rewrite ?E.
  - split; [exact Hs|]. exists []. split; [reflexivity|].
    intros Hl _. exfalso. unfold acts in Ha. rewrite Hs in Ha.
    destruct Hl as [-> | ->]; discriminate Ha.
  - congruence.
  - apply Hask.
  - rewrite <- (prepend_nil (ask _ w)). apply Hask.
  - simpl. split; [exact Hs|]. exists []. split; [reflexivity|].
    intros [-> | ->] _; destruct Hl as [[Hl _]|[Hl _]]; discriminate Hl.
Qed.

(** X3: After the scan the queue only loses relations, from its head, and
    [c] and [s] always take at least the head away: no relation is
    decided twice and every decision brings the end of the session
    nearer. *)
Theorem decisions_consume_the_queue (options : ScanOptions) (line : string)
    (s : Session) (w : World) :
  scanned s = true ->
  match handle options line s w with
  | (unhandled, s', w', outputs) =>
      scanned s' = true /\
      exists dropped,
        tableRelations s = (dropped ++ tableRelations s')%list /\
        (line = "c" \/ line = "s" -> tableRelations s <> [] -> dropped <> [])
  end.
Proof. apply on_line_queue. Qed.

(** X4: As long as no rejection goes unhandled, the prompt of a scanned
    session names the relation at the head of the queue, which is the
    one [c] creates the trigger of; a scanned session with nothing
    pending is closed. *)
Theorem prompt_names_the_head (options : ScanOptions) (line : string)
    (s : Session) (w : World) :
  (scanned s = true -> presenting s) ->
  match handle options line s w with
  | (unhandled, s', w', outputs) =>
      unhandled = None -> scanned s' = true -> presenting s'
  end.
Proof.
  intros Hinv.
  destruct (on_line_cases options line s w)
    as [[_ [outputs E]]|[[_ [_ E]]|[[_ [_ E]]|[[_ [_ E]]|[Hl E]]]]]; rewrite E.
  - intros _. exact Hinv.
  - destruct (scan options w) as [[relations|e] w1]; [|discriminate].
    pose proof (ask_queue {| tableRelations := relations; scanned := true;
                             prompt := prompt s; closed := closed s |} w1) as H.
    destruct (ask _ w1) as [[[unhandled s'] w'] outputs].
    destruct H as [_ [_ H]]. auto.
  - pose proof (ask_queue (with_queue s (tl (tableRelations s)))
                  (snd (createTrigger query buildCreateTriggerStatement s w))) as H.
    destruct (ask _ _) as [[[unhandled s'] w'] outputs]. simpl.
    destruct H as [_ [_ H]]. auto.
  - pose proof (ask_queue (with_queue s (tl (tableRelations s))) w) as H.
    destruct (ask _ w) as [[[unhandled s'] w'] outputs].
    destruct H as [_ [_ H]]. auto.
  - unfold close_session. simpl. intros _ Hs. specialize (Hinv Hs).
    unfold presenting in *. simpl. now destruct (tableRelations s).
Qed.

(** X5: Through a whole session that starts after the scan, what is pending
    at the end is an end of what was pending at the start. *)
Theorem session_queue_is_a_suffix (options : ScanOptions) (lines : list string)
    (s : Session) (w : World) :
  scanned s = true ->
  match session options lines s w with
  | (unhandled, s', w', outputs) =>
      scanned s' = true /\
      exists dropped, tableRelations s = (dropped ++ tableRelations s')%list
  end.
Proof.
  revert s w. induction lines as [|line lines IH]; intros s w Hs; simpl.
  - split; [exact Hs|]. now exists [].
  - destruct (closed s); [split; [exact Hs|]; now exists []|].
    pose proof (on_line_queue options line s w Hs) as H.
    destruct (handle options line s w) as [[[[e|] s1] w1] outputs].
    + destruct H as [H1 [dropped [Hq _]]]. split; [exact H1|]. now exists dropped.
    + destruct H as [H1 [dropped [Hq _]]]. specialize (IH s1 w1 H1).
      destruct (session options lines s1 w1) as [[[u s'] w'] later]. simpl.
      destruct IH as [H2 [dropped' Hq']]. split; [exact H2|].
      exists (dropped ++ dropped')%list. now rewrite Hq, Hq', app_assoc.
Qed.

(** X6: the scan is marked as done before it is tried, and its rejection
    is not caught: when [getTableRelations] is rejected on [y], the
    rejection goes unhandled, the tool prints nothing and asks the
    database nothing more, the queue is as it was, and no line that
    follows is handled. *)
Theorem failed_scan_ends_the_session (options : ScanOptions)
    (lines : list string) (s : Session) (w w1 : World) (e : Error) :
  scanned s = false ->
  closed s = false ->
  scan options w = (Rejected e, w1) ->
  session options ("y" :: lines) s w =
    (Some e,
     {| tableRelations := tableRelations s; scanned := true;
        prompt := prompt s; closed := false |},
     w1, []).
Proof.
  intros Hs Hc Hscan. simpl. rewrite Hc. unfold on_line. simpl.
  now rewrite Hs, Hscan, Hc.
Qed.

(** X7: With nothing pending, [c] logs the error of reading the head of an
    empty queue and [s] logs nothing; either closes the session, and
    neither hands a statement to the database. *)
Theorem decisions_on_an_empty_queue (options : ScanOptions)
    (s : Session) (w : World) :
  scanned s = true ->
  tableRelations s = [] ->
  let done := {| tableRelations := []; scanned := true;
                 prompt := prompt s; closed := true |} in
  (exists e, handle options "c" s w =
             (None, done, w, LogErrorObject e :: close_outputs)) /\
  handle options "s" s w = (None, done, w, close_outputs).
Proof.
  intros Hs Hq done. unfold on_line, createTrigger, shift_and_ask,
    askForNextRelation, with_queue. simpl. rewrite Hs, Hq. simpl.
  split; [eexists|]; reflexivity.
Qed.

(** X8: When the existence checks leave the database as it is, asking again
    gives the same answer: the relation handed back is handed back
    again, nothing more is removed, and one check is run. *)
Theorem asking_again_changes_nothing (queue queue' : list ForeignKeyFields)
    (w w' : World) (result : option ForeignKeyFields) (outputs : list Output) :
  (forall relation w0, snd (query (exist relation) w0) = w0) ->
  next queue w = (Fulfilled result, queue', w', outputs) ->
  w' = w /\
  next queue' w' =
    (Fulfilled result, queue', w', map Queried (map exist (firstn 1 queue'))).
Proof.
  intros Hro. revert w outputs.
  induction queue as [|relation rest IH]; intros w outputs H; simpl in H.
  - injection H as <- <- <- _. auto.
  - pose proof (Hro relation w) as Hw.
    destruct (query (exist relation) w) as [[rows|e] w1] eqn:Eq; [|discriminate].
    simpl in Hw. subst w1.
    destruct (truthy (unwrapSelectOneValue rows)) eqn:Et.
    + destruct (next rest w) as [[[r q] w2] o] eqn:En.
      injection H as -> -> -> _. exact (IH _ _ En).
    + injection H as <- <- <- _. split; [reflexivity|].
      simpl. now rewrite Eq, Et.
Qed.

(** X9: What a scan that succeeds hands to the session: relations found by
    the introspection of tables that the introspection listed, none
    outside the allow list when there is one, none in the deny list when
    there is no allow list, with no tenant column referenced and no two
    relations of the same trigger name. *)
Theorem scan_respects_the_filters (options : ScanOptions) (w w' : World)
    (relations : list ForeignKeyFields) :
  scan options w = (Fulfilled relations, w') ->
  NoDup (map relationHash relations) /\
  (forall tenant,
     tenantColumns options = Some tenant ->
     Forall (fun relation =>
               array_includes tenant (referencedColumnName relation) = false)
            relations) /\
  exists names w1 tables found,
    getSoftDeleteTableNames (schema options) w = (Fulfilled names, w1) /\
    getForeignKeysTableRelations tables (schema options) w1 = (Fulfilled found, w') /\
    incl tables names /\ incl relations found /\
    (forall allow,
       allowListTables options = Some allow ->
       Forall (fun table => array_includes allow table = true) tables) /\
    (forall deny,
       allowListTables options = None -> denyListTables options = Some deny ->
       Forall (fun table => array_includes deny table = false) tables).
Proof.
  unfold getTableRelations. intros H.
  destruct (getSoftDeleteTableNames (schema options) w) as [[names|e] w1] eqn:E1;
    [|discriminate].
  match type of H with
  | context [getForeignKeysTableRelations ?t _ _] => set (tables := t) in *
  end.
  destruct (getForeignKeysTableRelations tables (schema options) w1)
    as [[found|e] w2] eqn:E2; [|discriminate].
  injection H as <- <-.
  match goal with
  | |- context [dedupe ?l _] => set (kept := l)
  end.
  assert (Hsub : incl (dedupe kept relationHash) kept).
  { intros r Hr. apply dedupe_last, last_with_hash in Hr. tauto. }
  split; [apply dedupe_NoDup|]. split.
  - intros tenant Ht. apply Forall_forall. intros r Hr. apply Hsub in Hr.
    unfold kept in Hr. apply filter_In in Hr. destruct Hr as [_ Hr].
    rewrite Ht in Hr. now apply negb_true_iff in Hr.
  - exists names, w1, tables, found. repeat split; try assumption.
    + intros t Ht. unfold tables in Ht. now apply filter_In in Ht.
    + intros r Hr. apply Hsub in Hr. unfold kept in Hr. now apply filter_In in Hr.
    + intros allow Ha. apply Forall_forall. intros t Ht. unfold tables in Ht.
      apply filter_In in Ht. destruct Ht as [_ Ht]. now rewrite Ha in Ht.
    + intros deny Ha Hd. apply Forall_forall. intros t Ht. unfold tables in Ht.
      apply filter_In in Ht. destruct Ht as [_ Ht]. rewrite Ha, Hd in Ht.
      now apply negb_true_iff in Ht.
Qed.

End EngineSteps.

(** *** The same, on a database *)

Local Abbreviation demo_line :=
  (on_line DemoEngine.query DemoEngine.buildExistTriggerStatement
     createParanoidDeleteTriggerStatement DemoEngine.unwrapSelectOneValue
     DemoEngine.getSoftDeleteTableNames DemoEngine.getForeignKeysTableRelations
     DemoEngine.truthy).

Local Abbreviation demo_session :=
  (run DemoEngine.query DemoEngine.buildExistTriggerStatement
     createParanoidDeleteTriggerStatement DemoEngine.unwrapSelectOneValue
     DemoEngine.getSoftDeleteTableNames DemoEngine.getForeignKeysTableRelations
     DemoEngine.truthy).

Lemma idle_keys_change_nothing_witness :
  exists outputs,
    demo_line DemoEngine.scan "y" DemoEngine.pending [] =
      (None, DemoEngine.pending, [],
       (outputs ++ [Prompted (prompt DemoEngine.pending)])%list) /\
    existsb is_query outputs = false.
Proof.
  exact (idle_keys_change_nothing
           DemoEngine.query DemoEngine.buildExistTriggerStatement
           createParanoidDeleteTriggerStatement DemoEngine.unwrapSelectOneValue
           DemoEngine.getSoftDeleteTableNames
           DemoEngine.getForeignKeysTableRelations DemoEngine.truthy
           DemoEngine.scan "y" DemoEngine.pending [] eq_refl).
Defined.

Lemma decisions_consume_the_queue_witness :
  exists dropped,
    tableRelations DemoEngine.pending =
      (dropped ++ [DemoEngine.orders_warehouses])%list /\
    dropped <> [].
Proof.
  destruct (decisions_consume_the_queue
              DemoEngine.query DemoEngine.buildExistTriggerStatement
              createParanoidDeleteTriggerStatement DemoEngine.unwrapSelectOneValue
              DemoEngine.getSoftDeleteTableNames
              DemoEngine.getForeignKeysTableRelations DemoEngine.truthy
              DemoEngine.scan "s" DemoEngine.pending [] eq_refl)
    as [_ [dropped [Hq Hne]]].
  exists dropped. split; [exact Hq|]. apply Hne; [now right|discriminate].
Defined.

Lemma prompt_names_the_head_witness :
  presenting
    {| tableRelations := [DemoEngine.orders_warehouses]; scanned := true;
       prompt := relation_prompt DemoEngine.orders_warehouses; closed := false |}.
Proof.
  exact (prompt_names_the_head
           DemoEngine.query DemoEngine.buildExistTriggerStatement
           createParanoidDeleteTriggerStatement DemoEngine.unwrapSelectOneValue
           DemoEngine.getSoftDeleteTableNames
           DemoEngine.getForeignKeysTableRelations DemoEngine.truthy
           DemoEngine.scan "s" DemoEngine.pending []
           (fun _ => eq_refl) eq_refl eq_refl).
Defined.

Lemma session_queue_is_a_suffix_witness :
  exists dropped,
    tableRelations DemoEngine.pending = (dropped ++ [])%list.
Proof.
  destruct (session_queue_is_a_suffix
              DemoEngine.query DemoEngine.buildExistTriggerStatement
              createParanoidDeleteTriggerStatement DemoEngine.unwrapSelectOneValue
              DemoEngine.getSoftDeleteTableNames
              DemoEngine.getForeignKeysTableRelations DemoEngine.truthy
              DemoEngine.scan ["s"; "na"; "c"; "q"] DemoEngine.pending [] eq_refl)
    as [_ H].
  exact H.
Defined.

Lemma failed_scan_ends_the_session_witness :
  run DemoEngine.query DemoEngine.buildExistTriggerStatement
    createParanoidDeleteTriggerStatement DemoEngine.unwrapSelectOneValue
    DemoScan.getSoftDeleteTableNames DemoEngine.getForeignKeysTableRelations
    DemoEngine.truthy DemoEngine.scan ["y"; "y"; "c"] initial_session [] =
  (Some (DatabaseError "connect ECONNREFUSED"),
   {| tableRelations := []; scanned := true;
      prompt := initial_prompt; closed := false |}, [], []).
Proof.
  exact (failed_scan_ends_the_session
           DemoEngine.query DemoEngine.buildExistTriggerStatement
           createParanoidDeleteTriggerStatement DemoEngine.unwrapSelectOneValue
           DemoScan.getSoftDeleteTableNames
           DemoEngine.getForeignKeysTableRelations DemoEngine.truthy
           DemoEngine.scan ["y"; "c"] initial_session []
           eq_refl eq_refl eq_refl).
Defined.

Lemma decisions_on_an_empty_queue_witness :
  demo_line DemoEngine.scan "s"
    {| tableRelations := []; scanned := true;
       prompt := initial_prompt; closed := false |} [] =
  (None,
   {| tableRelations := []; scanned := true;
      prompt := initial_prompt; closed := true |}, [], close_outputs).
Proof.
  exact (proj2 (decisions_on_an_empty_queue
                  DemoEngine.query DemoEngine.buildExistTriggerStatement
                  createParanoidDeleteTriggerStatement
                  DemoEngine.unwrapSelectOneValue
                  DemoEngine.getSoftDeleteTableNames
                  DemoEngine.getForeignKeysTableRelations DemoEngine.truthy
                  DemoEngine.scan
                  {| tableRelations := []; scanned := true;
                     prompt := initial_prompt; closed := false |} []
                  eq_refl eq_refl)).
Defined.

Lemma asking_again_changes_nothing_witness :
  getNextRelation DemoEngine.query DemoEngine.buildExistTriggerStatement
    DemoEngine.unwrapSelectOneValue DemoEngine.truthy
    [DemoEngine.orders_warehouses] ["on_customers_delete_update_orders"] =
  (Fulfilled (Some DemoEngine.orders_warehouses), [DemoEngine.orders_warehouses],
   ["on_customers_delete_update_orders"],
   [Queried "SELECT EXISTS on_warehouses_delete_update_orders"]).
Proof.
  refine (proj2 (asking_again_changes_nothing
                   DemoEngine.query DemoEngine.buildExistTriggerStatement
                   DemoEngine.unwrapSelectOneValue DemoEngine.truthy
                   (tableRelations DemoEngine.pending)
                   ["on_customers_delete_update_orders"] _ eq_refl)).
  intros relation w0. unfold DemoEngine.query.
  now destruct (prefix _ _).
Defined.

Lemma scan_respects_the_filters_witness :
  Forall (fun relation =>
            array_includes ["tenant_id"] (referencedColumnName relation) = false)
    [orders_customers; DemoEngine.orders_warehouses].
Proof.
  refine (proj1 (proj2 (scan_respects_the_filters
                          DemoEngine.getSoftDeleteTableNames
                          DemoEngine.getForeignKeysTableRelations
                          DemoScan.filtered [] _)) ["tenant_id"] eq_refl).
  reflexivity.
Defined.

(* ================================================================== *)
(** * Further properties of the deduplicator *)

Lemma first_occurrences_snoc (keys : list string) (k : string) :
  first_occurrences (keys ++ [k]) =
  if in_dec string_dec k keys then first_occurrences keys
  else (first_occurrences keys ++ [k])%list.
Proof.
  unfold first_occurrences. rewrite rev_app_distr. simpl.
  destruct (in_dec string_dec k (rev keys)) as [Hin|Hout];
    destruct (in_dec string_dec k keys) as [Hin'|Hout']; try reflexivity.
  - elim Hout'. now apply in_rev.
  - elim Hout. now apply in_rev in Hin'.
Qed.

Section DedupeOrder.

Variable T : Type.
Variable hasher : T -> string.

Lemma assign_present (uniques : list (string * T)) (k : string) (v : T) :
  In k (map fst uniques) ->
  map fst (assign uniques k v) = map fst uniques.
Proof.
  induction uniques as [|[k0 v0] u IH]; simpl; intros H; [contradiction|].
  destruct (k =? k0) eqn:E; [reflexivity|]. simpl. f_equal. apply IH.
  destruct H as [->|H]; [|exact H]. now rewrite String.eqb_refl in E.
Qed.

Lemma assign_fresh (uniques : list (string * T)) (k : string) (v : T) :
  ~ In k (map fst uniques) -> assign uniques k v = (uniques ++ [(k, v)])%list.
Proof.
  induction uniques as [|[k0 v0] u IH]; simpl; intros H; [reflexivity|].
  destruct (k =? k0) eqn:E.
  - apply String.eqb_eq in E. elim H. now left.
  - f_equal. apply IH. tauto.
Qed.

Lemma assign_length (uniques : list (string * T)) (k : string) (v : T) :
  List.length uniques <= List.length (assign uniques k v) <= S (List.length uniques).
Proof.
  induction uniques as [|[k0 v0] u IH]; simpl; [lia|].
  destruct (k =? k0); simpl; lia.
Qed.

Lemma uniques_of_order (array : list T) :
  map fst (uniques_of array hasher) = first_occurrences (map hasher array).
Proof.
  induction array as [|item array IH] using rev_ind; [reflexivity|].
  rewrite uniques_of_snoc, map_app.
  change (map hasher [item]) with [hasher item].
  rewrite first_occurrences_snoc.
  destruct (in_dec string_dec (hasher item) (map hasher array)) as [Hin|Hout].
  - rewrite assign_present; [exact IH|].
    exact (proj2 (uniques_of_keys hasher array (hasher item)) Hin).
  - rewrite assign_fresh, map_app, IH; [reflexivity|].
    intros Hin. apply Hout.
    exact (proj1 (uniques_of_keys hasher array (hasher item)) Hin).
Qed.

Lemma uniques_of_distinct (array : list T) :
  NoDup (map hasher array) ->
  uniques_of array hasher = map (fun item => (hasher item, item)) array.
Proof.
  induction array as [|item array IH] using rev_ind; intros H; [reflexivity|].
  rewrite map_app in H. apply NoDup_remove in H. simpl in H.
  rewrite !app_nil_r in H. destruct H as [Hd Hout].
  rewrite uniques_of_snoc, assign_fresh, IH, map_app; try assumption;
    [reflexivity|].
  intros Hin. apply Hout.
    exact (proj1 (uniques_of_keys hasher array (hasher item)) Hin).
Qed.

Lemma dedupe_distinct (array : list T) :
  NoDup (map hasher array) -> dedupe array hasher = array.
Proof.
  intros H. unfold dedupe. rewrite uniques_of_distinct by exact H.
  rewrite map_map. simpl. apply map_id.
Qed.

Lemma dedupe_sublist (array : list T) :
  incl (dedupe array hasher) array /\
  List.length (dedupe array hasher) <= List.length array /\
  (dedupe array hasher = [] <-> array = []).
Proof.
  assert (Hlen : forall l,
            (l = [] -> List.length (uniques_of l hasher) = 0) /\
            (l <> [] -> 1 <= List.length (uniques_of l hasher)) /\
            List.length (uniques_of l hasher) <= List.length l).
  { induction l as [|item l IH] using rev_ind.
    - repeat split; try reflexivity; try (simpl; lia). intros H. now elim H.
    - rewrite uniques_of_snoc, length_app. simpl.
      pose proof (assign_length (uniques_of l hasher) (hasher item) item) as Ha.
      destruct IH as [_ [_ IH]]. repeat split.
      + intros H. now destruct l.
      + intros _. unfold uniques_of in Ha |- *.
        destruct (uniques_of l hasher) eqn:E; simpl in *.
        * unfold uniques_of in E. rewrite E. simpl. lia.
        * unfold uniques_of in E. rewrite E in *. simpl in *. lia.
      + lia. }
  split; [|split].
  - intros x Hx. apply dedupe_last, last_with_hash in Hx. tauto.
  - unfold dedupe. rewrite length_map. apply Hlen.
  - unfold dedupe. split.
    + intros H. apply (f_equal (@List.length _)) in H. rewrite length_map in H.
      destruct array as [|item array]; [reflexivity|].
      destruct (Hlen (item :: array)) as [_ [Hpos _]].
      assert (1 <= List.length (uniques_of (item :: array) hasher))
        by (apply Hpos; discriminate).
      simpl in H. lia.
    + intros ->. reflexivity.
Qed.

End DedupeOrder.

(** X10: [dedupe] hands back relations of the array, no more of them
    than the array has, and none only when the array has none. *)
Theorem dedupe_never_invents (array : list ForeignKeyFields) :
  incl (dedupe array relationHash) array /\
  List.length (dedupe array relationHash) <= List.length array /\
  (dedupe array relationHash = [] <-> array = []).
Proof. apply dedupe_sublist. Qed.

(** X11: The relations that are kept stand in the order in which their
    trigger names first occur among the relations found, whichever
    relation of the name it is that is kept. *)
Theorem dedupe_keeps_first_positions (array : list ForeignKeyFields) :
  map relationHash (dedupe array relationHash) =
  first_occurrences (map relationHash array).
Proof.
  unfold dedupe. rewrite uniques_of_hashes. apply uniques_of_order.
Qed.

(** X12: Relations that already have different trigger names come back as
    they are, in their order. *)
Theorem dedupe_leaves_distinct_relations (array : list ForeignKeyFields) :
  NoDup (map relationHash array) -> dedupe array relationHash = array.
Proof. apply dedupe_distinct. Qed.

Lemma dedupe_leaves_distinct_relations_witness :
  dedupe [orders_customers; DemoEngine.orders_warehouses] relationHash =
  [orders_customers; DemoEngine.orders_warehouses].
Proof.
  apply (dedupe_leaves_distinct_relations
           [orders_customers; DemoEngine.orders_warehouses]).
  repeat constructor; simpl; intuition discriminate.
Defined.

(** X13: Deduplicating twice is deduplicating once. *)
Theorem dedupe_is_idempotent (array : list ForeignKeyFields) :
  dedupe (dedupe array relationHash) relationHash = dedupe array relationHash.
Proof. apply dedupe_distinct, dedupe_NoDup. Qed.

(* ================================================================== *)
(** * Further properties of the interceptor *)

Lemma statement_header (primaryTable primaryKey foreignTable foreignKey : string) :
  exists rest,
    createParanoidDeleteTriggerStatement primaryTable primaryKey foreignTable foreignKey =
    trigger_header primaryTable foreignTable ++ rest.
Proof.
  eexists. unfold createParanoidDeleteTriggerStatement, trigger_header,
    buildTriggerName.
  simpl. repeat (rewrite !append_assoc; simpl). reflexivity.
Qed.

(** X14: In a [createTable] the name of the trigger of a column is made of
    the table the column refers to and of the new table, not of the
    column: two columns that refer to the same table ask for two
    triggers of the same name. *)
Theorem trigger_name_ignores_the_column (newTable : string)
    (columns : list (string * Attribute))
    (getPrimaryKey : option (string -> string)) :
  Forall2
    (fun (column : string * Attribute) (statement : string) =>
       exists references rest,
         snd column = ColumnOptions (Some "PARANOID CASCADE") (Some references) /\
         statement = trigger_header (referenced_table references) newTable ++ rest)
    (filter (fun column => carries_annotation (snd column)) columns)
    (createTableStatements newTable columns getPrimaryKey).
Proof.
  induction columns as [|[name attribute] columns IH]; [constructor|].
  rewrite createTableStatements_cons. simpl filter.
  destruct (getPrimaryTableProps_cases attribute getPrimaryKey)
    as [[-> [references [E ->]]]|[-> ->]]; [|exact IH].
  constructor; [|exact IH]. simpl.
  destruct (statement_header (referenced_table references)
              (resolved_key references getPrimaryKey) newTable name) as [rest Hr].
  exists references, rest. auto.
Qed.

Section Unannotated.

Variable Value : Type.
Variable World : Type.
Variable target : QueryInterface Value World.
Variable options : option Options.

(** X15: An [addColumn] whose column specification does not carry the
    annotation (a bare data type, no [onDelete], another [onDelete] than
    ['PARANOID CASCADE'], or no [references]) is the underlying call and
    nothing else. *)
Theorem addColumn_without_annotation
    (foreignTable foreignKey : string) (attribute : Attribute)
    (origMethod : CallArgs -> Async Value World) (now : nat) (w : World) :
  carries_annotation attribute = false ->
  method target "addColumn" = Some origMethod ->
  decorated target options "addColumn"
    (AddColumnArgs foreignTable foreignKey attribute) now w =
  direct origMethod (AddColumnArgs foreignTable foreignKey attribute) now w.
Proof.
  intros Hno Hm. unfold direct.
  destruct (origMethod _ now w) as [commandPromise w0] eqn:Hcall.
  erewrite decorated_addColumn; [|exact Hm|exact Hcall].
  destruct (getPrimaryTableProps_cases attribute (options_getPrimaryKey options))
    as [[Ha _]|[_ ->]]; [congruence|reflexivity].
Qed.

(** X16: A [createTable] none of whose columns carries the annotation issues
    no statement, leaves the database as the underlying call does and
    settles as the underlying promise does. *)
Theorem createTable_without_annotation
    (newTable : string) (columns : list (string * Attribute))
    (origMethod : CallArgs -> Async Value World) (now : nat) (w : World) :
  forallb (fun column => negb (carries_annotation (snd column))) columns = true ->
  method target "createTable" = Some origMethod ->
  let r := decorated target options "createTable"
             (CreateTableArgs newTable columns) now w in
  let underlying := origMethod (CreateTableArgs newTable columns) now w in
  issued_of r = [] /\
  world_of r = snd underlying /\
  settlement (promise_of r) = settlement (fst underlying) /\
  settled_at (promise_of r) = resume now (fst underlying).
Proof.
  intros Hno Hm r underlying. unfold r, underlying.
  destruct (origMethod _ now w) as [commandPromise w0] eqn:Hcall.
  erewrite decorated_createTable; [|exact Hm|exact Hcall].
  unfold createTableTriggers.
  assert (E : createTableStatements newTable columns
                (options_getPrimaryKey options) = []).
  { clear Hcall. induction columns as [|[name attribute] cols IH]; [reflexivity|].
    simpl in Hno. apply andb_true_iff in Hno. destruct Hno as [Ha Hno].
    rewrite createTableStatements_cons, (IH Hno).
    apply negb_true_iff in Ha.
    destruct (getPrimaryTableProps_cases attribute (options_getPrimaryKey options))
      as [[Hc _]|[_ ->]]; [congruence|reflexivity]. }
  rewrite E.
  destruct (settlement commandPromise) as [v|e] eqn:Es; simpl;
    unfold promise_of, world_of, issued_of; simpl; rewrite ?Es;
    repeat split; unfold resume; simpl; try (lia || congruence);
    apply Nat.max_0_r.
Qed.

(** X17: The two paths do not treat an empty table name alike: [addColumn]
    takes a reference to the table of the empty name for no reference
    and is the underlying call, where [createTable] makes a statement
    for the column. *)
Theorem empty_parent_table
    (foreignTable foreignKey : string) (references : References)
    (origMethod : CallArgs -> Async Value World) (now : nat) (w : World) :
  referenced_table references = EmptyString ->
  method target "addColumn" = Some origMethod ->
  decorated target options "addColumn"
    (AddColumnArgs foreignTable foreignKey
       (ColumnOptions (Some "PARANOID CASCADE") (Some references))) now w =
  direct origMethod
    (AddColumnArgs foreignTable foreignKey
       (ColumnOptions (Some "PARANOID CASCADE") (Some references))) now w /\
  createTableStatements foreignTable
    [(foreignKey, ColumnOptions (Some "PARANOID CASCADE") (Some references))]
    (options_getPrimaryKey options) =
  [createParanoidDeleteTriggerStatement EmptyString
     (resolved_key references (options_getPrimaryKey options))
     foreignTable foreignKey].
Proof.
  intros He Hm. split.
  - unfold direct.
    destruct (origMethod _ now w) as [commandPromise w0] eqn:Hcall.
    erewrite decorated_addColumn; [|exact Hm|exact Hcall].
    rewrite getPrimaryTableProps_annotated. simpl primaryTable.
    now rewrite He.
  - rewrite createTableStatements_cons, getPrimaryTableProps_annotated.
    simpl. now rewrite He.
Qed.

(** X18: Apart from that, [addColumn] issues for a column what [createTable]
    would issue for a table of that one column. *)
Theorem addColumn_issues_what_createTable_would
    (foreignTable foreignKey : string) (attribute : Attribute)
    (origMethod : CallArgs -> Async Value World) (now : nat) (w : World)
    (commandResult : Value) :
  (forall references,
     attribute = ColumnOptions (Some "PARANOID CASCADE") (Some references) ->
     referenced_table references <> EmptyString) ->
  method target "addColumn" = Some origMethod ->
  settlement
    (fst (origMethod (AddColumnArgs foreignTable foreignKey attribute) now w)) =
    Fulfilled commandResult ->
  map snd
    (issued_of
       (decorated target options "addColumn"
          (AddColumnArgs foreignTable foreignKey attribute) now w)) =
  createTableStatements foreignTable [(foreignKey, attribute)]
    (options_getPrimaryKey options).
Proof.
  intros Hne Hm Hok.
  destruct (origMethod _ now w) as [commandPromise w0] eqn:Hcall. simpl in Hok.
  erewrite decorated_addColumn; [|exact Hm|exact Hcall].
  rewrite createTableStatements_cons.
  destruct (getPrimaryTableProps_cases attribute (options_getPrimaryKey options))
    as [[_ [references [E ->]]]|[_ ->]]; [|reflexivity].
  simpl primaryTable. rewrite (truthy_string_nonempty (Hne _ E)).
  unfold addColumnTrigger. rewrite Hok. simpl.
  destruct (query (sequelize target) _ _ w0) as [q w1].
  now destruct (settlement q).
Qed.

(** X19: Whatever the call, the database is handed the underlying operation
    first and then the statements the interceptor issued, in their
    order, and nothing else. *)
Theorem database_sees_operation_then_statements
    (command : string) (args : CallArgs)
    (origMethod : CallArgs -> Async Value World) (now : nat) (w : World) :
  method target command = Some origMethod ->
  let r := decorated target options command args now w in
  let underlying := origMethod args now w in
  world_of r =
  snd (query_each (sequelize target) (map snd (issued_of r))
         (resume now (fst underlying)) (snd underlying)).
Proof.
  intros Hm r underlying. unfold r, underlying, decorated. rewrite Hm.
  destruct (origMethod args now w) as [commandPromise w0]. simpl fst. simpl snd.
  assert (Hadd : forall props foreignTable foreignKey,
            let a := addColumnTrigger target props foreignTable foreignKey
                       commandPromise now w0 in
            world_of a =
            snd (query_each (sequelize target) (map snd (issued_of a))
                   (resume now commandPromise) w0)).
  { intros props foreignTable foreignKey. unfold addColumnTrigger.
    destruct (settlement commandPromise); [|reflexivity].
    simpl. destruct (query (sequelize target) _ _ w0) as [q w1] eqn:Eq.
    destruct (settlement q); unfold world_of, issued_of; simpl; now rewrite Eq. }
  assert (Hcreate : forall newTable columns,
            let c := createTableTriggers target options newTable columns
                       commandPromise now w0 in
            world_of c =
            snd (query_each (sequelize target) (map snd (issued_of c))
                   (resume now commandPromise) w0)).
  { intros newTable columns. unfold createTableTriggers.
    destruct (settlement commandPromise); [|reflexivity].
    destruct (query_each (sequelize target) _ _ w0) as [ps w1] eqn:Eq.
    destruct (settlement (Promise_all ps)); unfold world_of, issued_of; simpl;
      now rewrite map_snd_pair, Eq. }
  destruct (command =? "addColumn").
  - destruct args as [foreignTable foreignKey attribute|newTable columns|rest].
    + destruct (getPrimaryTableProps attribute (options_getPrimaryKey options))
        as [props|].
      * destruct (truthy_string (primaryTable props)); [apply Hadd|].
        destruct (command =? "createTable"); [|reflexivity].
        now destruct (settlement commandPromise).
      * destruct (command =? "createTable"); [|reflexivity].
        now destruct (settlement commandPromise).
    + destruct (command =? "createTable"); [apply Hcreate|reflexivity].
    + destruct (command =? "createTable"); [|reflexivity].
      now destruct (settlement commandPromise).
  - destruct (command =? "createTable"); [|reflexivity].
    destruct args as [foreignTable foreignKey attribute|newTable columns|rest];
      [now destruct (settlement commandPromise)|apply Hcreate|
       now destruct (settlement commandPromise)].
Qed.

End Unannotated.

Lemma addColumn_without_annotation_witness :
  decorated (Demo.target Demo.refusing) None "addColumn"
    (AddColumnArgs "orders" "customer_id"
       (ColumnOptions (Some "CASCADE") (Some (RefTable "customers")))) 0 [] =
  ({| settled_at := 2; settlement := Fulfilled 7 |}, ["addColumn"], []).
Proof.
  exact (@addColumn_without_annotation nat Demo.Db
           (Demo.target Demo.refusing) None "orders" "customer_id"
           (ColumnOptions (Some "CASCADE") (Some (RefTable "customers")))
           (Demo.migrate "addColumn") 0 [] eq_refl eq_refl).
Defined.

Lemma createTable_without_annotation_witness :
  issued_of
    (decorated (Demo.target Demo.refusing) None "createTable"
       (CreateTableArgs "customers"
          [("id", DataType "INTEGER"); ("name", DataType "STRING")]) 0 []) = [].
Proof.
  exact (proj1 (@createTable_without_annotation nat Demo.Db
                  (Demo.target Demo.refusing) None "customers"
                  [("id", DataType "INTEGER"); ("name", DataType "STRING")]
                  (Demo.migrate "createTable") 0 [] eq_refl eq_refl)).
Defined.

Lemma empty_parent_table_witness :
  decorated (Demo.target Demo.accepting) None "addColumn"
    (AddColumnArgs "orders" "customer_id" (Demo.cascade_to EmptyString)) 0 [] =
  ({| settled_at := 2; settlement := Fulfilled 7 |}, ["addColumn"], []).
Proof.
  exact (proj1 (@empty_parent_table nat Demo.Db
                  (Demo.target Demo.accepting) None
                  "orders" "customer_id" (RefTable EmptyString)
                  (Demo.migrate "addColumn") 0 [] eq_refl eq_refl)).
Defined.

Lemma addColumn_issues_what_createTable_would_witness :
  map snd
    (issued_of
       (decorated (Demo.target Demo.accepting) None "addColumn"
          (AddColumnArgs "orders" "customer_id" (Demo.cascade_to "customers"))
          0 [])) =
  createTableStatements "orders"
    [("customer_id", Demo.cascade_to "customers")] None.
Proof.
  refine (@addColumn_issues_what_createTable_would nat Demo.Db
            (Demo.target Demo.accepting) None
            "orders" "customer_id" (Demo.cascade_to "customers")
            (Demo.migrate "addColumn") 0 [] 7 _ eq_refl eq_refl).
  intros references E. injection E as <-. discriminate.
Defined.

Lemma database_sees_operation_then_statements_witness :
  world_of
    (decorated (Demo.target Demo.accepting) None "createTable"
       (CreateTableArgs "orders" Demo.orders_columns) 0 []) =
  [ "createTable";
    createParanoidDeleteTriggerStatement "customers" "id" "orders" "customer_id";
    createParanoidDeleteTriggerStatement "warehouses" "id" "orders" "warehouse_id" ].
Proof.
  exact (@database_sees_operation_then_statements nat Demo.Db
           (Demo.target Demo.accepting) None "createTable"
           (CreateTableArgs "orders" Demo.orders_columns)
           (Demo.migrate "createTable") 0 [] eq_refl).
Defined.
